(** * RemoteWiring: the cached device state of [RemoteDevice]

    A shallow embedding of [source/RemoteWiring/RemoteDevice.cpp]: the
    capability-response parser, the analog pin-name parser, the pin and
    port cache with its public operations, and the two report callbacks.

    Conventions.
    - [uint8_t] and [uint16_t] values are integers in [Z]; every
      conversion to a narrower type is written out with [u8] / [u16].
    - A C array is a [list Z] whose length is the declared array size;
      an access outside the array is undefined behaviour in C++ and makes
      the operation fail ([None]).
    - The two locks only serialise callers, so every operation is modelled
      as one atomic state transformer. *)

From Stdlib Require Import ZArith Lia Bool String Ascii.
From stdpp Require Import base option list.

Local Open Scope Z_scope.

(** ** Machine integers *)

Definition u8 (x : Z) : Z := x mod 256.
Definition u16 (x : Z) : Z := x mod 65536.

(** [uint8_t x = ...; x &= ~m] : [~m] is computed on [int], the result is
    converted back to [uint8_t]. *)
Definition and_not8 (x m : Z) : Z := u8 (Z.land x (Z.lnot m)).
Definition or8 (x m : Z) : Z := u8 (Z.lor x m).

(** ** Enumerations of [RemoteDevice.h] *)

Inductive PinMode : Set :=
  | INPUT | OUTPUT | ANALOG | PWM | SERVO | I2C | IGNORED.

(** Modelled from the spec: the enumeration [PinMode] is declared in
    [RemoteDevice.h], which is not among the sources.  The capability
    example of the spec fixes [INPUT = 0x00] and [ANALOG = 0x02]; the other
    members carry the pin-mode numbers of the Firmata protocol, of which
    these two are part. *)
Definition mode_code (m : PinMode) : Z :=
  match m with
  | INPUT => 0x00
  | OUTPUT => 0x01
  | ANALOG => 0x02
  | PWM => 0x03
  | SERVO => 0x04
  | I2C => 0x06
  | IGNORED => 0x7F
  end.

Inductive PinState : Set := LOW | HIGH.

(** [static_cast<uint8_t>( state_ )] and [static_cast<PinState>( b )]. *)
Definition state_code (s : PinState) : Z :=
  match s with LOW => 0 | HIGH => 1 end.
Definition state_of_bool (b : bool) : PinState := if b then HIGH else LOW.

(** ** What the device object talks to *)

(** Commands of the protocol, written to the wire by name: their numeric
    values belong to the Firmata layer. *)
Inductive Command : Set :=
  | SET_PIN_MODE | REPORT_DIGITAL_PIN.

Inductive WireByte : Set :=
  | Raw (b : Z)
  | Cmd (c : Command)
  | CmdOr (c : Command) (low : Z).

(** Calls made on the [_firmata] object, in order. *)
Inductive FirmataCall : Set :=
  | f_lock
  | f_unlock
  | f_flush
  | f_write (b : WireByte)
  | f_sendAnalog (pin value : Z)
  | f_sendDigitalPort (port value : Z).

(** Events raised to the listeners, in order. *)
Inductive Event : Set :=
  | DeviceReadyEvent
  | DigitalPinUpdatedEvent (pin : Z) (state : PinState)
  | AnalogPinUpdatedEvent (pin : Z) (value : Z).

(** ** The device state

    The members are declared in [RemoteDevice.h]: the three counters of
    the capability scan, the four arrays of the cache.  The counters are
    kept as unbounded integers; the scan leaves each of them at most equal
    to the length of the payload.  The last two fields record what the
    object does to the outside: the calls on [_firmata] and the events. *)

Record RemoteDevice : Set := mkDevice {
  _analog_offset : Z;
  _num_analog_pins : Z;
  _total_pins : Z;
  _subscribed_ports : list Z;
  _digital_port : list Z;
  _analog_pins : list Z;
  _pin_mode : list Z;
  firmata_calls : list FirmataCall;
  raised : list Event
}.

Definition set_analog_offset (v : Z) (d : RemoteDevice) : RemoteDevice :=
  mkDevice v (_num_analog_pins d) (_total_pins d) (_subscribed_ports d)
    (_digital_port d) (_analog_pins d) (_pin_mode d) (firmata_calls d) (raised d).
Definition set_num_analog_pins (v : Z) (d : RemoteDevice) : RemoteDevice :=
  mkDevice (_analog_offset d) v (_total_pins d) (_subscribed_ports d)
    (_digital_port d) (_analog_pins d) (_pin_mode d) (firmata_calls d) (raised d).
Definition set_total_pins (v : Z) (d : RemoteDevice) : RemoteDevice :=
  mkDevice (_analog_offset d) (_num_analog_pins d) v (_subscribed_ports d)
    (_digital_port d) (_analog_pins d) (_pin_mode d) (firmata_calls d) (raised d).
Definition set_subscribed_ports (v : list Z) (d : RemoteDevice) : RemoteDevice :=
  mkDevice (_analog_offset d) (_num_analog_pins d) (_total_pins d) v
    (_digital_port d) (_analog_pins d) (_pin_mode d) (firmata_calls d) (raised d).
Definition set_digital_port (v : list Z) (d : RemoteDevice) : RemoteDevice :=
  mkDevice (_analog_offset d) (_num_analog_pins d) (_total_pins d) (_subscribed_ports d)
    v (_analog_pins d) (_pin_mode d) (firmata_calls d) (raised d).
Definition set_analog_pins (v : list Z) (d : RemoteDevice) : RemoteDevice :=
  mkDevice (_analog_offset d) (_num_analog_pins d) (_total_pins d) (_subscribed_ports d)
    (_digital_port d) v (_pin_mode d) (firmata_calls d) (raised d).
Definition set_pin_mode (v : list Z) (d : RemoteDevice) : RemoteDevice :=
  mkDevice (_analog_offset d) (_num_analog_pins d) (_total_pins d) (_subscribed_ports d)
    (_digital_port d) (_analog_pins d) v (firmata_calls d) (raised d).
Definition firmata (cs : list FirmataCall) (d : RemoteDevice) : RemoteDevice :=
  mkDevice (_analog_offset d) (_num_analog_pins d) (_total_pins d) (_subscribed_ports d)
    (_digital_port d) (_analog_pins d) (_pin_mode d) (firmata_calls d ++ cs) (raised d).
Definition raise (e : Event) (d : RemoteDevice) : RemoteDevice :=
  mkDevice (_analog_offset d) (_num_analog_pins d) (_total_pins d) (_subscribed_ports d)
    (_digital_port d) (_analog_pins d) (_pin_mode d) (firmata_calls d) (raised d ++ [e]).

(** [a[i]] for an index held in an unsigned or non-negative integer. *)
Definition at_ (a : list Z) (i : Z) : option Z :=
  if i <? 0 then None else a !! Z.to_nat i.

(** [a[i] = v]; fails outside the array. *)
Definition store (a : list Z) (i v : Z) : option (list Z) :=
  match at_ a i with
  | Some _ => Some (<[Z.to_nat i := v]> a)
  | None => None
  end.

(** ** [RemoteDevice::initialize]

    The four [memset]s over the whole arrays; the callback registrations
    that precede them change no cached state. *)
Definition initialize (d : RemoteDevice) : RemoteDevice :=
  mkDevice (_analog_offset d) (_num_analog_pins d) (_total_pins d)
    (replicate (length (_subscribed_ports d)) 0)
    (replicate (length (_digital_port d)) 0)
    (replicate (length (_analog_pins d)) 0)
    (replicate (length (_pin_mode d)) (mode_code OUTPUT))
    (firmata_calls d) (raised d).

(** ** [RemoteDevice::onPinCapabilityResponseReceived] *)

Definition END_OF_PIN_VALUE : Z := 0x7F.

(** The inner [while] of the scan, started at index [i]: it returns the
    index at which it stops.  [data !! i = None] is [i >= size].  The index
    is an [int] that starts at 0 and only grows, hence a [nat] here. *)
Fixpoint scan_pin (fuel : nat) (data : list Z) (i : nat) (d : RemoteDevice)
  : option (nat * RemoteDevice) :=
  match fuel with
  | O => None
  | S fuel' =>
    match data !! i with
    | None => Some (i, d)
    | Some b =>
      if b =? END_OF_PIN_VALUE then Some (i, d)
      else if b =? mode_code INPUT then
        scan_pin fuel' data (i + 4)%nat d
      else if b =? mode_code ANALOG then
        let d1 := if _analog_offset d =? 0
                  then set_analog_offset (_total_pins d) d else d in
        let d2 := set_num_analog_pins (_num_analog_pins d1 + 1) d1 in
        scan_pin fuel' data (i + 2)%nat d2
      else if (b =? mode_code PWM) || (b =? mode_code SERVO) || (b =? mode_code I2C) then
        scan_pin fuel' data (i + 2)%nat d
      else
        scan_pin fuel' data (i + 1)%nat d
    end
  end.

(** The outer [for]: one pin per round. *)
Fixpoint scan_pins (fuel : nat) (data : list Z) (i : nat) (d : RemoteDevice)
  : option RemoteDevice :=
  match fuel with
  | O => None
  | S fuel' =>
    if (i <? length data)%nat then
      match scan_pin (S (length data)) data i d with
      | Some (i', d') =>
          scan_pins fuel' data (S i') (set_total_pins (_total_pins d' + 1) d')
      | None => None
      end
    else Some d
  end.

(** The scan with the three counters reset, as the callback runs it. *)
Definition scan_capabilities (data : list Z) (d : RemoteDevice) : option RemoteDevice :=
  scan_pins (S (length data)) data 0%nat
    (set_num_analog_pins 0 (set_analog_offset 0 (set_total_pins 0 d))).

Definition onPinCapabilityResponseReceived (data : list Z) (d : RemoteDevice)
  : option RemoteDevice :=
  match scan_capabilities data d with
  | Some d' => Some (raise DeviceReadyEvent (initialize d'))
  | None => None
  end.

(** A device object before its first capability response, with arrays of
    the given sizes.  [initialize] overwrites every array. *)
Definition fresh (ports pins analogs : nat) : RemoteDevice :=
  mkDevice 0 0 0 (replicate ports 0) (replicate ports 0)
    (replicate analogs 0) (replicate pins 0) [] [].

Definition counters (d : RemoteDevice) : Z * Z * Z :=
  (_total_pins d, _num_analog_pins d, _analog_offset d).

(** ** [RemoteDevice::parsePinFromAnalogString] *)

(** [wcstol( s, nullptr, 10 )] as the C standard describes it: leading
    white space is skipped, one sign is accepted, the longest run of
    decimal digits is converted, and whatever follows is ignored; without
    any digit the result is 0; a value outside [long] is replaced by
    [LONG_MAX] or [LONG_MIN].  White space is that of the "C" locale, and
    [long] has the 32 bits it has on the platform of [Platform::String]. *)
Definition iswspace (c : ascii) : bool :=
  let n := Z.of_N (N_of_ascii c) in
  (n =? 32) || ((9 <=? n) && (n <=? 13)).

Definition digit_value (c : ascii) : option Z :=
  let n := Z.of_N (N_of_ascii c) in
  if (48 <=? n) && (n <=? 57) then Some (n - 48) else None.

Fixpoint skip_space (s : string) : string :=
  match s with
  | String c s' => if iswspace c then skip_space s' else s
  | EmptyString => s
  end.

Fixpoint digits_value (s : string) (acc : Z) : Z :=
  match s with
  | String c s' =>
      match digit_value c with
      | Some v => digits_value s' (acc * 10 + v)
      | None => acc
      end
  | EmptyString => acc
  end.

Definition LONG_MAX : Z := 2 ^ 31 - 1.
Definition LONG_MIN : Z := - 2 ^ 31.

Definition clamp_long (v : Z) : Z :=
  if v >? LONG_MAX then LONG_MAX else if v <? LONG_MIN then LONG_MIN else v.

Definition wcstol (s : string) : Z :=
  match skip_space s with
  | String "-" r => clamp_long (- digits_value r 0)
  | String "+" r => clamp_long (digits_value r 0)
  | r => clamp_long (digits_value r 0)
  end.

(** A null [Platform::String^] is the empty string. *)
Definition parsePinFromAnalogString (string_ : string) : Z :=
  if (String.length string_ <? 2)%nat then u8 (-1)
  else
    match string_ with
    | String d0 (String d1 _ as rest) =>
        if negb ((d0 =? "a")%char || (d0 =? "A")%char) then u8 (-1)
        else
          let parsed_num := wcstol rest in
          if (parsed_num =? 0) && negb (d1 =? "0")%char then u8 (-1)
          else u8 parsed_num
    | _ => u8 (-1)
    end.

(** ** Public methods *)

#[global] Instance PinMode_eq_dec : EqDecision PinMode.
Proof. solve_decision. Defined.

#[global] Instance PinState_eq_dec : EqDecision PinState.
Proof. solve_decision. Defined.

(** [getPinMap]: [port = pin / 8], [port_mask = 1 << (pin % 8)]. *)
Definition pin_port (pin : Z) : Z := pin / 8.
Definition pin_mask (pin : Z) : Z := u8 (Z.shiftl 1 (pin mod 8)).

(** [RemoteDevice::pinMode( uint8_t, PinMode )].  The cached mode of the
    pin is read once, ahead of the two tests that consult it; the source
    reads it in those tests and writes it at the end, and these accesses
    are inside or outside the array together. *)
Definition pinMode (pin_ : Z) (mode_ : PinMode) (d : RemoteDevice)
  : option RemoteDevice :=
  let port := pin_port pin_ in
  let port_mask := pin_mask pin_ in
  let d1 := firmata [f_lock; f_write (Cmd SET_PIN_MODE);
                     f_write (Raw pin_); f_write (Raw (mode_code mode_))] d in
  old ← at_ (_pin_mode d1) pin_;
  d2 ← (if decide (mode_ = INPUT) then
          sub ← at_ (_subscribed_ports d1) port;
          subs ← store (_subscribed_ports d1) port (or8 sub port_mask);
          Some (firmata [f_write (CmdOr REPORT_DIGITAL_PIN (Z.land port 0x0F));
                         f_write (Raw (or8 sub port_mask))]
                  (set_subscribed_ports subs d1))
        else if old =? mode_code INPUT then
          sub ← at_ (_subscribed_ports d1) port;
          subs ← store (_subscribed_ports d1) port (and_not8 sub port_mask);
          Some (firmata [f_write (CmdOr REPORT_DIGITAL_PIN (Z.land port 0x0F));
                         f_write (Raw (and_not8 sub port_mask))]
                  (set_subscribed_ports subs d1))
        else Some d1);
  let d3 := firmata [f_flush; f_unlock] d2 in
  d4 ← (if bool_decide (mode_ = OUTPUT) && negb (old =? mode_code OUTPUT) then
          v ← at_ (_digital_port d3) port;
          ports ← store (_digital_port d3) port (and_not8 v port_mask);
          Some (set_digital_port ports d3)
        else Some d3);
  modes ← store (_pin_mode d4) pin_ (mode_code mode_);
  Some (set_pin_mode modes d4).

(** [RemoteDevice::pinMode( Platform::String ^, PinMode )] *)
Definition pinMode_String (analog_pin_ : string) (mode_ : PinMode) (d : RemoteDevice)
  : option RemoteDevice :=
  let parsed_pin := parsePinFromAnalogString analog_pin_ in
  if parsed_pin =? u8 (-1) then Some d
  else pinMode (u8 (parsed_pin + _analog_offset d)) mode_ d.

(** [RemoteDevice::analogRead( uint8_t )] *)
Definition analogRead (pin_ : Z) (d : RemoteDevice) : option (Z * RemoteDevice) :=
  let val := u16 (-1) in
  let analog_pin_num := u8 (pin_ + _analog_offset d) in
  let read (d' : RemoteDevice) :=
    if pin_ <? _num_analog_pins d' then
      v ← at_ (_analog_pins d') pin_; Some (v, d')
    else Some (val, d') in
  m ← at_ (_pin_mode d) analog_pin_num;
  if negb (m =? mode_code ANALOG) then
    if m =? mode_code INPUT then
      d1 ← pinMode analog_pin_num ANALOG d; read d1
    else Some (val, d)
  else read d.

(** [RemoteDevice::analogRead( Platform::String^ )] *)
Definition analogRead_String (analog_pin_ : string) (d : RemoteDevice)
  : option (Z * RemoteDevice) :=
  let parsed_pin := parsePinFromAnalogString analog_pin_ in
  if parsed_pin =? u8 (-1) then Some (u16 (-1), d)
  else analogRead (u8 (parsed_pin + _analog_offset d)) d.

(** [RemoteDevice::analogWrite] *)
Definition analogWrite (pin_ value_ : Z) (d : RemoteDevice) : option RemoteDevice :=
  m ← at_ (_pin_mode d) pin_;
  if negb (m =? mode_code PWM) then
    if m =? mode_code OUTPUT then
      d1 ← pinMode pin_ PWM d;
      modes ← store (_pin_mode d1) pin_ (mode_code PWM);
      Some (firmata [f_sendAnalog pin_ value_] (set_pin_mode modes d1))
    else Some d
  else Some (firmata [f_sendAnalog pin_ value_] d).

(** [RemoteDevice::digitalRead] *)
Definition digitalRead (pin_ : Z) (d : RemoteDevice) : option (PinState * RemoteDevice) :=
  let port := pin_port pin_ in
  let port_mask := pin_mask pin_ in
  m ← at_ (_pin_mode d) pin_;
  d1 ← (if negb (m =? mode_code INPUT) then
          if m =? mode_code ANALOG then pinMode pin_ INPUT d else Some d
        else Some d);
  v ← at_ (_digital_port d1) port;
  Some (state_of_bool (Z.land v port_mask >? 0), d1).

(** [RemoteDevice::digitalWrite] *)
Definition digitalWrite (pin_ : Z) (state_ : PinState) (d : RemoteDevice)
  : option RemoteDevice :=
  let port := pin_port pin_ in
  let port_mask := pin_mask pin_ in
  let write (d' : RemoteDevice) :=
    v ← at_ (_digital_port d') port;
    let v' := if negb (state_code state_ =? 0)
              then or8 v port_mask else and_not8 v port_mask in
    ports ← store (_digital_port d') port v';
    Some (firmata [f_sendDigitalPort port v'] (set_digital_port ports d')) in
  m ← at_ (_pin_mode d) pin_;
  if negb (m =? mode_code OUTPUT) then
    if m =? mode_code PWM then
      d1 ← pinMode pin_ OUTPUT d; write d1
    else Some d
  else write d.

(** [RemoteDevice::getPinMode( uint8_t )]: the cached byte, as a mode. *)
Definition getPinMode (pin_ : Z) (d : RemoteDevice) : option Z :=
  at_ (_pin_mode d) pin_.

(** [RemoteDevice::getPinMode( Platform::String ^ )] *)
Definition getPinMode_String (analog_pin_ : string) (d : RemoteDevice) : option Z :=
  let parsed_pin := parsePinFromAnalogString analog_pin_ in
  if parsed_pin =? u8 (-1) then Some (mode_code IGNORED)
  else getPinMode (u8 (parsed_pin + _analog_offset d)) d.

(** ** Callbacks *)

(** The notification loop of [onDigitalReport]: [port_xor] is a [uint8_t],
    so eight rounds empty it. *)
Fixpoint pin_events (fuel : nat) (port port_val port_xor i : Z) (d : RemoteDevice)
  : option RemoteDevice :=
  if port_xor >? 0 then
    match fuel with
    | O => None
    | S fuel' =>
      let d1 :=
        if negb (Z.land port_xor 0x01 =? 0) then
          raise (DigitalPinUpdatedEvent (port * 8 + i)
                   (if Z.land (Z.shiftr port_val i) 0x01 >? 0 then HIGH else LOW)) d
        else d in
      pin_events fuel' port port_val (Z.shiftr port_xor 1) (u8 (i + 1)) d1
    end
  else Some d.

(** [RemoteDevice::onDigitalReport], on the report [(port, value)]. *)
Definition onDigitalReport (port value : Z) (d : RemoteDevice) : option RemoteDevice :=
  let port_val := u8 value in
  sub ← at_ (_subscribed_ports d) port;
  old ← at_ (_digital_port d) port;
  let output_state := u8 (Z.land (Z.lnot sub) old) in
  let port_val := or8 port_val output_state in
  let port_xor := u8 (Z.lxor port_val old) in
  ports ← store (_digital_port d) port port_val;
  pin_events 8 port port_val port_xor 0 (set_digital_port ports d).

(** [RemoteDevice::onAnalogReport], on the report [(pin, val)]. *)
Definition onAnalogReport (pin val : Z) (d : RemoteDevice) : option RemoteDevice :=
  pins ← store (_analog_pins d) pin val;
  Some (raise (AnalogPinUpdatedEvent pin val) (set_analog_pins pins d)).

(** ** The operations as one transition system *)

Inductive Op : Set :=
  | call_pinMode (pin : Z) (mode : PinMode)
  | call_pinMode_String (name : string) (mode : PinMode)
  | call_digitalWrite (pin : Z) (state : PinState)
  | call_digitalRead (pin : Z)
  | call_analogWrite (pin value : Z)
  | call_analogRead (pin : Z)
  | call_analogRead_String (name : string)
  | report_digital (port value : Z)
  | report_analog (pin value : Z)
  | report_capabilities (data : list Z).

Definition run (o : Op) (d : RemoteDevice) : option RemoteDevice :=
  match o with
  | call_pinMode pin mode => pinMode pin mode d
  | call_pinMode_String name mode => pinMode_String name mode d
  | call_digitalWrite pin state => digitalWrite pin state d
  | call_digitalRead pin => snd <$> digitalRead pin d
  | call_analogWrite pin value => analogWrite pin value d
  | call_analogRead pin => snd <$> analogRead pin d
  | call_analogRead_String name => snd <$> analogRead_String name d
  | report_digital port value => onDigitalReport port value d
  | report_analog pin value => onAnalogReport pin value d
  | report_capabilities data => onPinCapabilityResponseReceived data d
  end.

(** The states a device object goes through once its first capability
    response has initialised the cache. *)
Inductive reachable : RemoteDevice -> Prop :=
  | reach_ready d0 data d :
      onPinCapabilityResponseReceived data d0 = Some d -> reachable d
  | reach_step d o d' :
      reachable d -> run o d = Some d' -> reachable d'.

(** The subscription bit of a pin is set exactly when its cached mode is
    [INPUT]. *)
Definition subscription_inv (d : RemoteDevice) : Prop :=
  forall p m sub,
    at_ (_pin_mode d) p = Some m ->
    at_ (_subscribed_ports d) (pin_port p) = Some sub ->
    (Z.testbit sub (p mod 8) = true <-> m = mode_code INPUT).

(** ** Reference readings used by the statements *)

(** Number of bytes the scan passes for a capability that starts with byte [b]. *)
Definition entry_width (b : Z) : nat :=
  if b =? mode_code INPUT then 4
  else if (b =? mode_code ANALOG) || (b =? mode_code PWM)
          || (b =? mode_code SERVO) || (b =? mode_code I2C) then 2
  else 1.

Definition push (b : Z) (r : list (list Z * bool)) : list (list Z * bool) :=
  match r with
  | (c, t) :: rs => (b :: c, t) :: rs
  | [] => [([b], false)]
  end.

(** The payload cut into pin descriptors the way the specification walks
    it, one byte at a time: each descriptor is the list of capability bytes observed for a pin together
    with a flag telling whether a [0x7F] closed it.  [skip] counts the
    bytes still to pass of the capability being read; [opened] tells that
    the current descriptor has begun. *)
Fixpoint descriptors (l : list Z) (skip : nat) (opened : bool)
  : list (list Z * bool) :=
  match l with
  | [] => if opened then [([], false)] else []
  | b :: l' =>
    match skip with
    | S k => descriptors l' k opened
    | O =>
      if b =? END_OF_PIN_VALUE then ([], true) :: descriptors l' 0 false
      else push b (descriptors l' (entry_width b - 1) true)
    end
  end.

(** Descriptors that a [0x7F] closed. *)
Definition complete (r : list (list Z * bool)) : list (list Z * bool) :=
  filter (fun x => snd x = true) r.

(** The payload ends inside the last descriptor. *)
Definition cut_short (r : list (list Z * bool)) : bool :=
  match last r with
  | Some (_, false) => true
  | _ => false
  end.

Definition is_analog (b : Z) : bool := b =? mode_code ANALOG.

(** Index, counted from [pin], of the first descriptor that shows an
    [ANALOG] capability. *)
Fixpoint first_analog (r : list (list Z * bool)) (pin : Z) : option Z :=
  match r with
  | [] => None
  | (c, _) :: rs =>
      if existsb is_analog c then Some pin else first_analog rs (pin + 1)
  end.

(** What the scan does to the counters on one capability byte, and on a
    whole list of descriptors. *)
Definition note (d : RemoteDevice) (b : Z) : RemoteDevice :=
  if is_analog b then
    let d1 := if _analog_offset d =? 0
              then set_analog_offset (_total_pins d) d else d in
    set_num_analog_pins (_num_analog_pins d1 + 1) d1
  else d.

Fixpoint tally (r : list (list Z * bool)) (d : RemoteDevice) : RemoteDevice :=
  match r with
  | [] => d
  | (c, _) :: rs =>
      let d' := fold_left note c d in
      tally rs (set_total_pins (_total_pins d' + 1) d')
  end.

Definition is_digit (c : ascii) : bool :=
  match digit_value c with Some _ => true | None => false end.

Fixpoint all_digits (s : string) : bool :=
  match s with
  | String c s' => is_digit c && all_digits s'
  | EmptyString => true
  end.

(** A pin name as the specification words it: ['A'] or ['a'], then a
    non-empty run of decimal digits and nothing else. *)
Definition well_formed_name (s : string) : bool :=
  match s with
  | String c rest =>
      ((c =? "A")%char || (c =? "a")%char)
      && negb (rest =? "")%string && all_digits rest
  | EmptyString => false
  end.

(** The decimal value of a run of digits. *)
Definition decimal (s : string) : Z := digits_value s 0.

(** Everything the device object caches, without the record of the events
    it has raised. *)
Definition cache (d : RemoteDevice) :=
  (_analog_offset d, _num_analog_pins d, _total_pins d,
   _subscribed_ports d, _digital_port d, _analog_pins d, _pin_mode d,
   firmata_calls d).

(** Bit [i] of the cached byte of [port] is the same before and after the
    report [(port, raw)]. *)
Definition output_bit_survives (d : RemoteDevice) (port raw i : Z) : Prop :=
  forall old d',
    at_ (_digital_port d) port = Some old ->
    onDigitalReport port raw d = Some d' ->
    exists new,
      at_ (_digital_port d') port = Some new /\ Z.testbit new i = Z.testbit old i.

(** ** Readings used by the further properties *)

(** The cached level of pin [q]: the bit that [digitalRead] tests. *)
Definition pin_bit (d : RemoteDevice) (q : Z) : option bool :=
  v ← at_ (_digital_port d) (pin_port q); Some (Z.testbit v (q mod 8)).

(** The subscription bit of pin [q]. *)
Definition subscribed_bit (d : RemoteDevice) (q : Z) : option bool :=
  v ← at_ (_subscribed_ports d) (pin_port q); Some (Z.testbit v (q mod 8)).

(** One event for each of the [n] bits of [changed] from bit [i] on that
    is set, lowest bit first, carrying the pin of the bit and the level
    found in [port_val]. *)
Fixpoint bit_events (n : nat) (port port_val changed i : Z) : list Event :=
  match n with
  | O => []
  | S n' =>
      (if Z.testbit changed i
       then [DigitalPinUpdatedEvent (port * 8 + i)
               (state_of_bool (Z.testbit port_val i))]
       else [])
      ++ bit_events n' port port_val changed (i + 1)
  end.

(** Number of [ANALOG] capability bytes in a list of descriptors. *)
Fixpoint count_analog (r : list (list Z * bool)) : nat :=
  match r with
  | [] => O
  | (c, _) :: rs => (length (filter (fun b => is_analog b = true) c) + count_analog rs)%nat
  end.

(** What the device holds besides the three counters of the scan. *)
Definition arrays (d : RemoteDevice) :=
  (_subscribed_ports d, _digital_port d, _analog_pins d, _pin_mode d,
   firmata_calls d, raised d).

(** The cached mode bytes are all values of the enumeration. *)
Definition modes_valid (d : RemoteDevice) : Prop :=
  Forall (fun m => exists mode, m = mode_code mode) (_pin_mode d).

(** * Properties *)

(** ** Machine integers and arrays *)

Lemma u8_range x : 0 <= u8 x < 256.
Proof. unfold u8. apply Z.mod_pos_bound. lia. Qed.

Lemma u8_testbit x i : 0 <= i < 8 -> Z.testbit (u8 x) i = Z.testbit x i.
Proof.
  intros Hi. unfold u8. change 256 with (2 ^ 8).
  apply Z.mod_pow2_bits_low. lia.
Qed.

Lemma at_Some a i v : at_ a i = Some v -> 0 <= i /\ a !! Z.to_nat i = Some v.
Proof.
  unfold at_. destruct (i <? 0) eqn:E; [discriminate|].
  intros H. split; [lia | exact H].
Qed.

Lemma at_lookup a i : 0 <= i -> at_ a i = a !! Z.to_nat i.
Proof. intros H. unfold at_. destruct (i <? 0) eqn:E; [lia | reflexivity]. Qed.

Lemma store_Some a i v w : at_ a i = Some w -> store a i v = Some (<[Z.to_nat i := v]> a).
Proof. intros H. unfold store. rewrite H. reflexivity. Qed.

Lemma at_store_same a i v w : at_ a i = Some w -> at_ (<[Z.to_nat i := v]> a) i = Some v.
Proof.
  intros H. apply at_Some in H as [Hi H]. rewrite at_lookup by lia.
  apply list_lookup_insert_eq. eapply lookup_lt_Some; eauto.
Qed.

Lemma at_store_other a i j v :
  0 <= i -> 0 <= j -> i <> j -> at_ (<[Z.to_nat i := v]> a) j = at_ a j.
Proof.
  intros Hi Hj Hne. rewrite !at_lookup by lia.
  apply list_lookup_insert_ne. lia.
Qed.

(** Boolean comparisons on [Z] turned into propositions, for [lia]. *)
Ltac zbool :=
  repeat match goal with
  | H : (_ =? _) = true |- _ => apply Z.eqb_eq in H
  | H : (_ =? _) = false |- _ => apply Z.eqb_neq in H
  | H : (_ <? _) = true |- _ => apply Z.ltb_lt in H
  | H : (_ <? _) = false |- _ => apply Z.ltb_ge in H
  | H : (_ >? _) = true |- _ => rewrite Z.gtb_ltb in H; apply Z.ltb_lt in H
  | H : (_ >? _) = false |- _ => rewrite Z.gtb_ltb in H; apply Z.ltb_ge in H
  | H : (_ <=? _) = true |- _ => apply Z.leb_le in H
  | H : (_ <=? _) = false |- _ => apply Z.leb_gt in H
  | |- (_ =? _) = true => apply Z.eqb_eq
  | |- (_ =? _) = false => apply Z.eqb_neq
  end.

(** ** The capability scan against its byte-by-byte reading *)

Lemma push_nonempty b r : push b r <> [].
Proof. destruct r as [|[c t] rs]; discriminate. Qed.

Lemma descriptors_opened l k : descriptors l k true <> [].
Proof.
  revert k. induction l as [|b l IH]; intros k; simpl; [discriminate|].
  destruct k as [|k]; [|apply IH].
  destruct (b =? END_OF_PIN_VALUE); [discriminate | apply push_nonempty].
Qed.

Lemma descriptors_skip l k :
  descriptors l k true = descriptors (drop k l) 0 true.
Proof.
  revert l. induction k as [|k IH]; intros l; [by rewrite drop_0|].
  destruct l as [|b l]; [reflexivity|]. simpl. apply IH.
Qed.

Lemma tally_push b r d : r <> [] -> tally (push b r) d = tally r (note d b).
Proof. destruct r as [|[c t] rs]; [congruence | reflexivity]. Qed.

Lemma tally_entry data i b d opened :
  data !! i = Some b -> b <> END_OF_PIN_VALUE ->
  tally (descriptors (drop i data) 0 opened) d
  = tally (descriptors (drop (i + entry_width b) data) 0 true) (note d b).
Proof.
  intros Hb Hend. rewrite (drop_S _ _ _ Hb). cbn [descriptors].
  destruct (b =? END_OF_PIN_VALUE) eqn:E; [zbool; lia|].
  rewrite tally_push by apply descriptors_opened.
  rewrite descriptors_skip, drop_drop. do 3 f_equal.
  unfold entry_width. repeat case_match; lia.
Qed.

Lemma scan_pin_descriptors fuel data i d opened :
  (length data - i < fuel)%nat ->
  opened = true \/ (i < length data)%nat ->
  exists i' d',
    scan_pin fuel data i d = Some (i', d') /\ (i <= i')%nat /\
    tally (descriptors (drop i data) 0 opened) d
    = tally (descriptors (drop (S i') data) 0 false)
        (set_total_pins (_total_pins d' + 1) d').
Proof.
  revert i d opened. induction fuel as [|fuel IH]; intros i d opened Hf Ho; [lia|].
  cbn [scan_pin]. destruct (data !! i) as [b|] eqn:Hb.
  - destruct (b =? END_OF_PIN_VALUE) eqn:Eend.
    { exists i, d. split; [reflexivity|]. split; [lia|].
      rewrite (drop_S _ _ _ Hb). cbn [descriptors]. rewrite Eend. reflexivity. }
    assert (Hlt : (i < length data)%nat) by (eapply lookup_lt_Some; eauto).
    assert (Hne : b <> END_OF_PIN_VALUE) by (zbool; lia).
    rewrite (tally_entry _ _ _ _ _ Hb Hne).
    unfold entry_width, note, is_analog.
    destruct (b =? mode_code INPUT) eqn:E0.
    { assert ((b =? mode_code ANALOG) = false) as ->
        by (zbool; unfold mode_code in *; lia).
      destruct (IH (i + 4)%nat d true) as (i' & d' & -> & Hle & ->); [lia | auto |].
      exists i', d'. repeat split; lia. }
    destruct (b =? mode_code ANALOG) eqn:E2.
    { cbn [orb].
      match goal with |- context [scan_pin fuel data _ ?d2] =>
        destruct (IH (i + 2)%nat d2 true) as (i' & d' & -> & Hle & ->); [lia | auto |]
      end.
      exists i', d'. repeat split; lia. }
    cbn [orb].
    destruct ((b =? mode_code PWM) || (b =? mode_code SERVO) || (b =? mode_code I2C)) eqn:E3.
    { destruct (IH (i + 2)%nat d true) as (i' & d' & -> & Hle & ->); [lia | auto |].
      exists i', d'. repeat split; lia. }
    destruct (IH (i + 1)%nat d true) as (i' & d' & -> & Hle & ->); [lia | auto |].
    exists i', d'. repeat split; lia.
  - apply lookup_ge_None in Hb. destruct Ho as [-> | Ho]; [|lia].
    exists i, d. split; [reflexivity|]. split; [lia|].
    rewrite !drop_ge by lia. reflexivity.
Qed.

Lemma scan_pins_descriptors fuel data i d :
  (length data - i < fuel)%nat ->
  scan_pins fuel data i d = Some (tally (descriptors (drop i data) 0 false) d).
Proof.
  revert i d. induction fuel as [|fuel IH]; intros i d Hf; [lia|].
  simpl. destruct (i <? length data)%nat eqn:Hi.
  - apply Nat.ltb_lt in Hi.
    destruct (scan_pin_descriptors (S (length data)) data i d false)
      as (i' & d' & Hs & Hle & Ht); [lia | auto |].
    simpl in Hs. rewrite Hs. rewrite IH by lia. rewrite Ht. reflexivity.
  - apply Nat.ltb_ge in Hi. rewrite drop_ge by lia. reflexivity.
Qed.

(** The scan always finishes, and its result is the tally of the
    descriptors of the payload. *)
Lemma scan_capabilities_descriptors data d :
  scan_capabilities data d
  = Some (tally (descriptors data 0 false)
            (set_num_analog_pins 0 (set_analog_offset 0 (set_total_pins 0 d)))).
Proof.
  unfold scan_capabilities. rewrite scan_pins_descriptors by lia.
  by rewrite drop_0.
Qed.

(** *** What the tally does to each counter *)

Lemma note_total d b : _total_pins (note d b) = _total_pins d.
Proof. unfold note. repeat case_match; reflexivity. Qed.

Lemma fold_note_total c d : _total_pins (fold_left note c d) = _total_pins d.
Proof.
  revert d. induction c as [|b c IH]; intros d; [reflexivity|].
  simpl. rewrite IH. apply note_total.
Qed.

Lemma note_offset d b :
  _analog_offset (note d b)
  = if (_analog_offset d =? 0) && is_analog b then _total_pins d else _analog_offset d.
Proof.
  unfold note. destruct (is_analog b), (_analog_offset d =? 0); reflexivity.
Qed.

Lemma fold_note_offset c d :
  _analog_offset (fold_left note c d)
  = if (_analog_offset d =? 0) && existsb is_analog c
    then _total_pins d else _analog_offset d.
Proof.
  revert d. induction c as [|b c IH]; intros d.
  - simpl. rewrite andb_false_r. reflexivity.
  - simpl. rewrite IH, note_offset, note_total.
    destruct (_analog_offset d =? 0) eqn:E0, (is_analog b); simpl; try reflexivity.
    + destruct (_total_pins d =? 0) eqn:E1; simpl.
      * destruct (existsb is_analog c); [reflexivity | zbool; lia].
      * reflexivity.
    + rewrite E0. reflexivity.
    + rewrite E0. reflexivity.
    + rewrite E0. reflexivity.
Qed.

Lemma tally_total r d :
  _total_pins (tally r d) = _total_pins d + Z.of_nat (length r).
Proof.
  revert d. induction r as [|[c t] r IH]; intros d; simpl tally.
  - simpl. lia.
  - rewrite IH. cbn [_total_pins set_total_pins length].
    rewrite fold_note_total. lia.
Qed.

(** Once the offset is not 0 the scan leaves it alone. *)
Lemma tally_offset_kept r d :
  _analog_offset d <> 0 -> _analog_offset (tally r d) = _analog_offset d.
Proof.
  revert d. induction r as [|[c t] r IH]; intros d Hd; [reflexivity|].
  simpl tally. rewrite IH; cbn [_analog_offset set_total_pins];
    rewrite fold_note_offset;
    destruct (_analog_offset d =? 0) eqn:E; zbool; simpl; congruence.
Qed.

(** While the offset is 0, the first analog pin of non-zero index sets it. *)
Lemma tally_offset_from r d :
  _analog_offset d = 0 -> 0 < _total_pins d ->
  _analog_offset (tally r d) = default 0 (first_analog r (_total_pins d)).
Proof.
  revert d. induction r as [|[c t] r IH]; intros d Hd Hn; [exact Hd|].
  simpl tally. cbn [first_analog].
  destruct (existsb is_analog c) eqn:Ec.
  - rewrite tally_offset_kept; cbn [_analog_offset set_total_pins];
      rewrite fold_note_offset, Hd, Ec; simpl; lia.
  - rewrite IH; cbn [_analog_offset _total_pins set_total_pins].
    + rewrite fold_note_total. reflexivity.
    + rewrite fold_note_offset, Hd, Ec. reflexivity.
    + rewrite fold_note_total. lia.
Qed.

(** The offset the scan leaves: the index of the first analog pin other
    than pin 0, and 0 when there is none. *)
Lemma tally_offset_reset r d :
  _analog_offset d = 0 -> _total_pins d = 0 ->
  _analog_offset (tally r d) = default 0 (first_analog (drop 1 r) 1).
Proof.
  intros Hd Hn. destruct r as [|[c t] r]; [exact Hd|].
  cbn [tally drop]. rewrite tally_offset_from;
    cbn [_analog_offset _total_pins set_total_pins].
  - rewrite fold_note_total, Hn. reflexivity.
  - rewrite fold_note_offset, Hd, Hn. simpl. by destruct (existsb is_analog c).
  - rewrite fold_note_total. lia.
Qed.

Lemma capability_counters data d :
  exists d',
    onPinCapabilityResponseReceived data d = Some d' /\
    counters d' = counters (tally (descriptors data 0 false)
      (set_num_analog_pins 0 (set_analog_offset 0 (set_total_pins 0 d)))).
Proof.
  unfold onPinCapabilityResponseReceived.
  rewrite scan_capabilities_descriptors. eexists. split; reflexivity.
Qed.

(** *** The shape of the descriptor list *)

Lemma push_shape b r :
  r <> [] ->
  length (push b r) = length r /\
  length (complete (push b r)) = length (complete r) /\
  cut_short (push b r) = cut_short r.
Proof.
  destruct r as [|[c t] rs]; [congruence|]. intros _. cbn [push].
  split; [reflexivity|]. split.
  - unfold complete. rewrite !filter_cons. simpl. destruct t; reflexivity.
  - unfold cut_short. destruct rs as [|x rs]; [reflexivity|].
    rewrite !last_cons_cons. reflexivity.
Qed.

(** Only the last descriptor can lack its terminator. *)
Lemma descriptors_shape l k opened :
  length (descriptors l k opened)
  = (length (complete (descriptors l k opened))
     + (if cut_short (descriptors l k opened) then 1 else 0))%nat.
Proof.
  revert k opened. induction l as [|b l IH]; intros k opened.
  - destruct opened; reflexivity.
  - cbn [descriptors]. destruct k as [|k]; [|apply IH].
    destruct (b =? END_OF_PIN_VALUE).
    + specialize (IH 0%nat false).
      unfold complete in *. rewrite filter_cons. simpl.
      rewrite IH. f_equal. unfold cut_short.
      destruct (descriptors l 0 false) as [|x r]; [reflexivity|].
      rewrite last_cons_cons. reflexivity.
    + destruct (push_shape b (descriptors l (entry_width b - 1) true))
        as (-> & -> & ->); [apply descriptors_opened | apply IH].
Qed.

Lemma descriptors_length l k opened :
  (length (descriptors l k opened) <= length l + (if opened then 1 else 0))%nat.
Proof.
  revert k opened. induction l as [|b l IH]; intros k opened.
  - destruct opened; simpl; lia.
  - cbn [descriptors length]. destruct k as [|k].
    + destruct (b =? END_OF_PIN_VALUE).
      * specialize (IH 0%nat false). simpl in *. lia.
      * destruct (push_shape b (descriptors l (entry_width b - 1) true))
          as (-> & _); [apply descriptors_opened|].
        specialize (IH (entry_width b - 1)%nat true). simpl in *.
        destruct opened; lia.
    + specialize (IH k opened). destruct opened; simpl in *; lia.
Qed.

Lemma first_analog_skip_pin0 r k :
  first_analog r 0 = Some k -> k <> 0 ->
  default 0 (first_analog (drop 1 r) 1) = k.
Proof.
  destruct r as [|[c t] r]; [discriminate|]. cbn [first_analog drop].
  destruct (existsb is_analog c); [congruence|].
  change (0 + 1) with 1. intros H _. rewrite drop_0, H. reflexivity.
Qed.

(** ** Claims on the capability response *)

(** X22: The offset the callback leaves is the index of the first analog pin
    other than pin 0, or 0 when no such pin exists; so it is the first
    analog pin whenever that pin is not pin 0. *)
Lemma analog_offset_after_scan data d :
  exists d',
    onPinCapabilityResponseReceived data d = Some d' /\
    _analog_offset d'
    = default 0 (first_analog (drop 1 (descriptors data 0 false)) 1).
Proof.
  destruct (capability_counters data d) as (d' & Hd & Hc).
  exists d'. split; [exact Hd|].
  injection Hc as _ _ ->. by apply tally_offset_reset.
Qed.

(** C2 (amended): the capability-response parser run on the payload
    [0x00, 0x01, 0x02, 0x0A, 0x7F, 0x7F] yields [total_pins = 2],
    [num_analog_pins = 0] and [analog_offset = 0]: the four-byte step taken
    at the [INPUT] byte passes over the bytes [0x02, 0x0A]. *)
Theorem capability_example_counters d :
  exists d',
    onPinCapabilityResponseReceived [0x00; 0x01; 0x02; 0x0A; 0x7F; 0x7F] d = Some d' /\
    _total_pins d' = 2 /\ _num_analog_pins d' = 0 /\ _analog_offset d' = 0.
Proof.
  destruct (capability_counters [0x00; 0x01; 0x02; 0x0A; 0x7F; 0x7F] d)
    as (d' & Hd & Hc).
  exists d'. split; [exact Hd|].
  unfold counters in Hc. injection Hc as -> -> ->. repeat split.
Qed.

(** C2, as claimed, fails: on that payload the parser does not count one
    analog pin. *)
Lemma capability_example_not_one_analog :
  ~ exists d',
      onPinCapabilityResponseReceived [0x00; 0x01; 0x02; 0x0A; 0x7F; 0x7F]
        (fresh 16 128 6) = Some d' /\
      _total_pins d' = 2 /\ _num_analog_pins d' = 1 /\ _analog_offset d' = 0.
Proof.
  intros (d' & Hd & _ & Hn & _).
  destruct (capability_counters [0x00; 0x01; 0x02; 0x0A; 0x7F; 0x7F] (fresh 16 128 6))
    as (d2 & Hd2 & Hc).
  rewrite Hd in Hd2. injection Hd2 as <-.
  unfold counters in Hc. injection Hc as _ Hc _. rewrite Hc in Hn.
  vm_compute in Hn. discriminate.
Qed.

(** C3: on the payload of two analog pins [0x02 0x0A 0x7F 0x02 0x0A 0x7F]
    the first pin showing [ANALOG] is pin 0, yet the parser leaves
    [analog_offset = 1]: the offset captured at pin 0 is 0, which the test
    [_analog_offset == 0] takes for "not captured yet", and pin 1
    overwrites it. *)
Theorem analog_offset_overwritten_after_pin0 :
  first_analog (descriptors [0x02; 0x0A; 0x7F; 0x02; 0x0A; 0x7F] 0 false) 0 = Some 0 /\
  forall d, exists d',
    onPinCapabilityResponseReceived [0x02; 0x0A; 0x7F; 0x02; 0x0A; 0x7F] d = Some d' /\
    _analog_offset d' = 1 /\ _num_analog_pins d' = 2 /\ _total_pins d' = 2.
Proof.
  split; [reflexivity|]. intros d.
  destruct (capability_counters [0x02; 0x0A; 0x7F; 0x02; 0x0A; 0x7F] d)
    as (d' & Hd & Hc).
  exists d'. split; [exact Hd|].
  unfold counters in Hc. injection Hc as -> -> ->. repeat split.
Qed.

(** C4 (amended): on every payload the scan comes to an end within the
    fuel given by the payload length, and leaves [total_pins] equal to the
    number of descriptors closed by [0x7F], plus one when the payload ends
    inside a descriptor: the descriptor cut short is counted as a pin.
    The count never exceeds the payload length. *)
Theorem scan_counts_cut_short_descriptor data d :
  exists d',
    onPinCapabilityResponseReceived data d = Some d' /\
    _total_pins d'
    = Z.of_nat (length (complete (descriptors data 0 false)))
      + (if cut_short (descriptors data 0 false) then 1 else 0) /\
    _total_pins d' <= Z.of_nat (length data).
Proof.
  destruct (capability_counters data d) as (d' & Hd & Hc).
  exists d'. split; [exact Hd|].
  injection Hc as -> _ _. rewrite tally_total. cbn [_total_pins set_total_pins
    set_analog_offset set_num_analog_pins].
  pose proof (descriptors_shape data 0 false) as Hs.
  pose proof (descriptors_length data 0 false) as Hl. simpl in Hl.
  revert Hs. destruct (cut_short (descriptors data 0 false)); lia.
Qed.

(** C4, as claimed, fails: the payload [0x03 0x08] holds no [0x7F], so no
    descriptor is complete, and the parser leaves [total_pins = 1]. *)
Lemma cut_short_descriptor_counted :
  ~ exists d',
      onPinCapabilityResponseReceived [0x03; 0x08] (fresh 16 128 6) = Some d' /\
      _total_pins d' = Z.of_nat (length (complete (descriptors [0x03; 0x08] 0 false))).
Proof.
  intros (d' & Hd & Ht).
  destruct (capability_counters [0x03; 0x08] (fresh 16 128 6)) as (d2 & Hd2 & Hc).
  rewrite Hd in Hd2. injection Hd2 as <-.
  unfold counters in Hc. injection Hc as Hc _ _. rewrite Hc in Ht.
  vm_compute in Ht. discriminate.
Qed.

(** ** Bits of a port byte *)

Lemma pin_mask_pow2 p : pin_mask p = 2 ^ (p mod 8).
Proof.
  unfold pin_mask, u8. rewrite Z.shiftl_1_l.
  pose proof (Z.mod_pos_bound p 8 ltac:(lia)) as Hr.
  apply Z.mod_small. split; [apply Z.pow_nonneg; lia|].
  change 256 with (2 ^ 8). apply Z.pow_lt_mono_r; lia.
Qed.

Lemma pin_mask_testbit p j : Z.testbit (pin_mask p) j = (p mod 8 =? j).
Proof.
  rewrite pin_mask_pow2. apply Z.pow2_bits_eqb.
  pose proof (Z.mod_pos_bound p 8 ltac:(lia)). lia.
Qed.

Lemma or8_testbit x m j :
  0 <= j < 8 -> Z.testbit (or8 x m) j = Z.testbit x j || Z.testbit m j.
Proof. intros Hj. unfold or8. rewrite u8_testbit by lia. apply Z.lor_spec. Qed.

Lemma and_not8_testbit x m j :
  0 <= j < 8 -> Z.testbit (and_not8 x m) j = Z.testbit x j && negb (Z.testbit m j).
Proof.
  intros Hj. unfold and_not8. rewrite u8_testbit by lia.
  rewrite Z.land_spec, Z.lnot_spec by lia. reflexivity.
Qed.

Lemma land_pow2 x k :
  0 <= k -> Z.land x (2 ^ k) = if Z.testbit x k then 2 ^ k else 0.
Proof.
  intros Hk. apply Z.bits_inj'. intros n Hn.
  rewrite Z.land_spec, Z.pow2_bits_eqb by lia.
  destruct (Z.eqb_spec k n) as [->|Hne].
  - destruct (Z.testbit x n); simpl.
    + rewrite Z.pow2_bits_true; lia.
    + symmetry. apply Z.bits_0.
  - rewrite andb_false_r. destruct (Z.testbit x k).
    + rewrite Z.pow2_bits_false; lia.
    + symmetry. apply Z.bits_0.
Qed.

(** [( v & port_mask ) > 0] reads the bit of the pin. *)
Lemma land_pin_mask v p : (Z.land v (pin_mask p) >? 0) = Z.testbit v (p mod 8).
Proof.
  pose proof (Z.mod_pos_bound p 8 ltac:(lia)) as Hr.
  rewrite pin_mask_pow2, land_pow2 by lia.
  destruct (Z.testbit v (p mod 8)); [|reflexivity].
  rewrite Z.gtb_ltb. apply Z.ltb_lt. apply Z.pow_pos_nonneg; lia.
Qed.

(** ** [onDigitalReport] *)

(** The notification loop ends within its eight rounds and touches nothing
    but the record of raised events. *)
Lemma pin_events_cache fuel port port_val port_xor i d :
  0 <= port_xor < 2 ^ Z.of_nat fuel ->
  exists d', pin_events fuel port port_val port_xor i d = Some d' /\ cache d' = cache d.
Proof.
  revert port_xor i d. induction fuel as [|fuel IH]; intros px i d Hpx.
  - simpl in Hpx. assert (px = 0) as -> by lia. exists d. split; reflexivity.
  - cbn [pin_events]. destruct (px >? 0) eqn:E; [|exists d; split; reflexivity].
    match goal with |- context [pin_events fuel _ _ _ _ ?d1] =>
      destruct (IH (Z.shiftr px 1) (u8 (i + 1)) d1) as (d' & -> & Hc)
    end.
    + rewrite Z.shiftr_div_pow2 by lia. change (2 ^ 1) with 2.
      rewrite Nat2Z.inj_succ, Z.pow_succ_r in Hpx by lia.
      split; [apply Z.div_pos; lia | apply Z.div_lt_upper_bound; lia].
    + exists d'. split; [reflexivity|]. rewrite Hc.
      destruct (negb (Z.land px 1 =? 0)); reflexivity.
Qed.

(** Every bit of the port byte after a digital report: the reported bit,
    or-ed with the cached bit where the pin is not subscribed. *)
Lemma onDigitalReport_bits d port raw sub old :
  at_ (_subscribed_ports d) port = Some sub ->
  at_ (_digital_port d) port = Some old ->
  exists d' new,
    onDigitalReport port raw d = Some d' /\
    at_ (_digital_port d') port = Some new /\
    _digital_port d' = <[Z.to_nat port := new]> (_digital_port d) /\
    _subscribed_ports d' = _subscribed_ports d /\
    _pin_mode d' = _pin_mode d /\
    _analog_pins d' = _analog_pins d /\
    forall i, 0 <= i < 8 ->
      Z.testbit new i = Z.testbit raw i || (negb (Z.testbit sub i) && Z.testbit old i).
Proof.
  intros Hs Ho. unfold onDigitalReport. rewrite Hs, Ho. cbn [mbind option_bind].
  rewrite (store_Some _ _ _ _ Ho). cbn [mbind option_bind].
  match goal with |- context [pin_events 8 ?a ?b ?c ?e ?f] =>
    destruct (pin_events_cache 8 a b c e f) as (d' & Hd & Hc);
      [apply u8_range | rewrite Hd]
  end.
  injection Hc as _ _ _ Hsub Hdig Han Hmo _. cbn in Hsub, Hdig, Han, Hmo.
  eexists d', _. split; [reflexivity|]. rewrite Hdig.
  split; [eapply at_store_same; eauto|]. repeat split; try assumption.
  intros i Hi. rewrite or8_testbit, !u8_testbit by lia.
  rewrite Z.land_spec, Z.lnot_spec by lia. reflexivity.
Qed.

(** C1 (amended): for every inbound digital-port report [(port, raw)] and
    every pin of that port whose subscription bit is clear, the pin's bit in
    the cached port byte after the report is the bit cached before or-ed
    with the reported bit.  It therefore keeps the last locally written
    value whenever that value is HIGH or the report carries the bit as 0. *)
Theorem report_merges_unsubscribed_bit d port raw sub old i :
  0 <= i < 8 ->
  at_ (_subscribed_ports d) port = Some sub ->
  at_ (_digital_port d) port = Some old ->
  Z.testbit sub i = false ->
  exists d' new,
    onDigitalReport port raw d = Some d' /\
    at_ (_digital_port d') port = Some new /\
    Z.testbit new i = Z.testbit old i || Z.testbit raw i /\
    (Z.testbit old i = true \/ Z.testbit raw i = false ->
     Z.testbit new i = Z.testbit old i).
Proof.
  intros Hi Hs Ho Hbit.
  destruct (onDigitalReport_bits d port raw sub old Hs Ho)
    as (d' & new & Hd & Hn & _ & _ & _ & _ & Hb).
  exists d', new. split; [exact Hd|]. split; [exact Hn|].
  rewrite (Hb i Hi), Hbit. simpl.
  split; [apply orb_comm|].
  intros [-> | ->]; [apply orb_true_r | reflexivity].
Qed.

(** X18: The bits of subscribed pins take the reported value. *)
Lemma report_updates_subscribed_bit d port raw sub old i :
  0 <= i < 8 ->
  at_ (_subscribed_ports d) port = Some sub ->
  at_ (_digital_port d) port = Some old ->
  Z.testbit sub i = true ->
  exists d' new,
    onDigitalReport port raw d = Some d' /\
    at_ (_digital_port d') port = Some new /\
    Z.testbit new i = Z.testbit raw i.
Proof.
  intros Hi Hs Ho Hbit.
  destruct (onDigitalReport_bits d port raw sub old Hs Ho)
    as (d' & new & Hd & Hn & _ & _ & _ & _ & Hb).
  exists d', new. split; [exact Hd|]. split; [exact Hn|].
  rewrite (Hb i Hi), Hbit. apply orb_false_r.
Qed.

Lemma report_merges_unsubscribed_bit_witness :
  exists d' new,
    onDigitalReport 0 0x00 (set_digital_port [0x20] (initialize (fresh 1 8 6))) = Some d' /\
    at_ (_digital_port d') 0 = Some new /\
    Z.testbit new 5 = Z.testbit 0x20 5 || Z.testbit 0x00 5 /\
    (Z.testbit 0x20 5 = true \/ Z.testbit 0x00 5 = false ->
     Z.testbit new 5 = Z.testbit 0x20 5).
Proof.
  apply (report_merges_unsubscribed_bit _ 0 0x00 0 0x20 5);
    [lia | reflexivity | reflexivity | reflexivity].
Defined.

(** C1, as claimed, fails: right after initialisation pin 5 is an OUTPUT
    pin last driven LOW and not subscribed; the report [(0, 0x20)] sets
    its cached bit. *)
Lemma report_sets_low_output_bit :
  getPinMode 5 (initialize (fresh 16 128 6)) = Some (mode_code OUTPUT) /\
  (exists sub, at_ (_subscribed_ports (initialize (fresh 16 128 6))) 0 = Some sub /\
               Z.testbit sub 5 = false) /\
  ~ output_bit_survives (initialize (fresh 16 128 6)) 0 0x20 5.
Proof.
  split; [reflexivity|]. split; [exists 0; split; reflexivity|].
  intros H. destruct (H 0 _ eq_refl eq_refl) as (new & Hn & Hb).
  vm_compute in Hn. injection Hn as <-. vm_compute in Hb. discriminate.
Qed.

(** ** [analogRead], [digitalWrite] / [digitalRead], [onAnalogReport] *)

(** Outside the modes ANALOG and INPUT, [analogRead] answers at once. *)
Lemma analogRead_other_mode d p m :
  at_ (_pin_mode d) (u8 (p + _analog_offset d)) = Some m ->
  m <> mode_code ANALOG -> m <> mode_code INPUT ->
  analogRead p d = Some (0xFFFF, d).
Proof.
  intros Hm Ha Hi. unfold analogRead. rewrite Hm. cbn [mbind option_bind].
  destruct (m =? mode_code ANALOG) eqn:E1; [zbool; congruence|].
  destruct (m =? mode_code INPUT) eqn:E2; [zbool; congruence|].
  reflexivity.
Qed.

(** C7: when the cached mode that [analogRead] consults is neither ANALOG
    nor INPUT, the call returns the sentinel [0xFFFF] and leaves the whole
    device state as it was (cache, calls made on the protocol object,
    events raised); the result does not depend on the cached analog
    values, whatever they are. *)
Theorem analogRead_wrong_mode d p m :
  at_ (_pin_mode d) (u8 (p + _analog_offset d)) = Some m ->
  m <> mode_code ANALOG -> m <> mode_code INPUT ->
  analogRead p d = Some (0xFFFF, d) /\
  forall values,
    analogRead p (set_analog_pins values d) = Some (0xFFFF, set_analog_pins values d).
Proof.
  intros Hm Ha Hi. split; [eapply analogRead_other_mode; eauto|].
  intros values. eapply analogRead_other_mode; eauto.
Qed.

Lemma analogRead_wrong_mode_witness :
  analogRead 3 (set_pin_mode (replicate 8 (mode_code PWM)) (initialize (fresh 1 8 6)))
  = Some (0xFFFF, set_pin_mode (replicate 8 (mode_code PWM)) (initialize (fresh 1 8 6))) /\
  forall values,
    analogRead 3 (set_analog_pins values
                    (set_pin_mode (replicate 8 (mode_code PWM)) (initialize (fresh 1 8 6))))
    = Some (0xFFFF, set_analog_pins values
                      (set_pin_mode (replicate 8 (mode_code PWM)) (initialize (fresh 1 8 6)))).
Proof.
  apply (analogRead_wrong_mode _ 3 (mode_code PWM)); [reflexivity | simpl; lia | simpl; lia].
Defined.

(** C8: on a pin whose cached mode is OUTPUT, [digitalWrite(p, s)] followed
    by [digitalRead(p)] returns [s], for both pin states. *)
Theorem digitalWrite_digitalRead d p s v :
  at_ (_pin_mode d) p = Some (mode_code OUTPUT) ->
  at_ (_digital_port d) (pin_port p) = Some v ->
  exists d', digitalWrite p s d = Some d' /\ digitalRead p d' = Some (s, d').
Proof.
  intros Hm Hv. unfold digitalWrite. rewrite Hm. cbn [mbind option_bind].
  change (mode_code OUTPUT =? mode_code OUTPUT) with true. cbn [negb].
  rewrite Hv. cbn [mbind option_bind]. rewrite (store_Some _ _ _ _ Hv).
  cbn [mbind option_bind]. eexists. split; [reflexivity|].
  unfold digitalRead. cbn [_pin_mode firmata set_digital_port _digital_port].
  rewrite Hm. cbn [mbind option_bind].
  change (mode_code OUTPUT =? mode_code INPUT) with false.
  change (mode_code OUTPUT =? mode_code ANALOG) with false.
  cbn [negb mbind option_bind _digital_port firmata set_digital_port].
  rewrite (at_store_same _ _ _ _ Hv). cbn [mbind option_bind].
  rewrite land_pin_mask.
  pose proof (Z.mod_pos_bound p 8 ltac:(lia)) as Hr.
  destruct s; cbn [state_code Z.eqb negb].
  - rewrite and_not8_testbit, pin_mask_testbit, Z.eqb_refl by lia.
    rewrite andb_false_r. reflexivity.
  - rewrite or8_testbit, pin_mask_testbit, Z.eqb_refl by lia.
    rewrite orb_true_r. reflexivity.
Qed.

Lemma digitalWrite_digitalRead_witness :
  exists d',
    digitalWrite 13 HIGH (initialize (fresh 16 128 6)) = Some d' /\
    digitalRead 13 d' = Some (HIGH, d').
Proof.
  apply (digitalWrite_digitalRead _ 13 HIGH 0); reflexivity.
Defined.

(** C9: an inbound analog report [(pin, value)] stores [value] as the
    cached analog value of [pin] and then raises exactly one
    analog-pin-changed event carrying [(pin, value)], whatever value was
    cached before; a second identical report raises the event again. *)
Theorem onAnalogReport_stores_and_notifies d pin value old :
  at_ (_analog_pins d) pin = Some old ->
  exists d' d'',
    onAnalogReport pin value d = Some d' /\
    at_ (_analog_pins d') pin = Some value /\
    raised d' = raised d ++ [AnalogPinUpdatedEvent pin value] /\
    onAnalogReport pin value d' = Some d'' /\
    at_ (_analog_pins d'') pin = Some value /\
    raised d'' = raised d ++ [AnalogPinUpdatedEvent pin value;
                              AnalogPinUpdatedEvent pin value].
Proof.
  intros Ho. unfold onAnalogReport.
  rewrite (store_Some _ _ _ _ Ho). cbn [mbind option_bind].
  pose proof (at_store_same _ _ value _ Ho) as H1.
  eexists _, _. split; [reflexivity|].
  cbn [_analog_pins raised raise set_analog_pins].
  split; [exact H1|]. split; [reflexivity|].
  rewrite (store_Some _ _ _ _ H1). cbn [mbind option_bind].
  split; [reflexivity|].
  cbn [_analog_pins raised raise set_analog_pins].
  split; [eapply at_store_same; exact H1|].
  rewrite <- app_assoc. reflexivity.
Qed.

Lemma onAnalogReport_stores_and_notifies_witness :
  exists d' d'',
    onAnalogReport 2 512 (initialize (fresh 16 128 6)) = Some d' /\
    at_ (_analog_pins d') 2 = Some 512 /\
    raised d' = raised (initialize (fresh 16 128 6)) ++ [AnalogPinUpdatedEvent 2 512] /\
    onAnalogReport 2 512 d' = Some d'' /\
    at_ (_analog_pins d'') 2 = Some 512 /\
    raised d'' = raised (initialize (fresh 16 128 6))
                 ++ [AnalogPinUpdatedEvent 2 512; AnalogPinUpdatedEvent 2 512].
Proof.
  apply (onAnalogReport_stores_and_notifies _ 2 512 0). reflexivity.
Defined.


(** ** The subscription invariant *)

Ltac bind_inv H :=
  match type of H with
  | mbind _ ?m = Some _ =>
      let E := fresh "E" in
      destruct m eqn:E; cbn [mbind option_bind] in H; [|discriminate H]
  end.

Lemma store_inv a i v a' :
  store a i v = Some a' -> a' = <[Z.to_nat i := v]> a /\ exists w, at_ a i = Some w.
Proof.
  unfold store. destruct (at_ a i) as [w|]; [|discriminate].
  intros [= <-]. eauto.
Qed.

Lemma mode_code_inj m1 m2 : mode_code m1 = mode_code m2 -> m1 = m2.
Proof. destruct m1, m2; simpl; intros H; try reflexivity; discriminate. Qed.

Lemma pinMode_effect p mode_ d d' :
  pinMode p mode_ d = Some d' ->
  exists old,
    at_ (_pin_mode d) p = Some old /\
    _pin_mode d' = <[Z.to_nat p := mode_code mode_]> (_pin_mode d) /\
    _analog_offset d' = _analog_offset d /\
    _num_analog_pins d' = _num_analog_pins d /\
    _analog_pins d' = _analog_pins d /\
    ((mode_ = INPUT /\ exists sub,
        at_ (_subscribed_ports d) (pin_port p) = Some sub /\
        _subscribed_ports d'
        = <[Z.to_nat (pin_port p) := or8 sub (pin_mask p)]> (_subscribed_ports d)) \/
     (mode_ <> INPUT /\ old = mode_code INPUT /\ exists sub,
        at_ (_subscribed_ports d) (pin_port p) = Some sub /\
        _subscribed_ports d'
        = <[Z.to_nat (pin_port p) := and_not8 sub (pin_mask p)]> (_subscribed_ports d)) \/
     (mode_ <> INPUT /\ old <> mode_code INPUT /\
        _subscribed_ports d' = _subscribed_ports d)).
Proof.
  unfold pinMode. intros H. cbn [_pin_mode firmata] in H.
  bind_inv H. rename z into old. rename E into Hold.
  bind_inv H. rename r into d2. rename E into E2.
  bind_inv H. rename r into d4. rename E into E4.
  bind_inv H. rename l into modes. rename E into E5.
  injection H as <-. apply store_inv in E5 as [-> _].
  assert (F4 : _pin_mode d4 = _pin_mode d2 /\
               _subscribed_ports d4 = _subscribed_ports d2 /\
               _analog_offset d4 = _analog_offset d2 /\
               _num_analog_pins d4 = _num_analog_pins d2 /\
               _analog_pins d4 = _analog_pins d2).
  { destruct (bool_decide (mode_ = OUTPUT) && negb (old =? mode_code OUTPUT)).
    - bind_inv E4. bind_inv E4. injection E4 as <-. repeat split.
    - injection E4 as <-. repeat split. }
  destruct F4 as (P4 & S4 & O4 & N4 & A4).
  exists old. split; [reflexivity|].
  cbn [_pin_mode _subscribed_ports _analog_offset _num_analog_pins _analog_pins set_pin_mode].
  rewrite P4, S4, O4, N4, A4. clear E4 P4 S4 O4 N4 A4.
  destruct (decide (mode_ = INPUT)) as [->|Hne].
  - bind_inv E2. bind_inv E2. injection E2 as <-.
    apply store_inv in E0 as [-> _]. repeat split. left. split; [reflexivity|].
    eexists. split; [exact E|reflexivity].
  - destruct (old =? mode_code INPUT) eqn:Eo.
    + bind_inv E2. bind_inv E2. injection E2 as <-.
      apply store_inv in E0 as [-> _]. repeat split. right; left.
      split; [exact Hne|]. split; [zbool; exact Eo|].
      eexists. split; [exact E|reflexivity].
    + injection E2 as <-. repeat split. right; right.
      split; [exact Hne|]. split; [zbool; exact Eo|reflexivity].
Qed.

(** On pins and ports inside the arrays [pinMode] is defined. *)
Lemma pinMode_defined p mode_ d old sub v :
  at_ (_pin_mode d) p = Some old ->
  at_ (_subscribed_ports d) (pin_port p) = Some sub ->
  at_ (_digital_port d) (pin_port p) = Some v ->
  is_Some (pinMode p mode_ d).
Proof.
  intros Hold Hsub Hv. unfold pinMode. cbn [_pin_mode firmata].
  rewrite Hold. cbn [mbind option_bind _subscribed_ports firmata].
  rewrite Hsub. cbn [mbind option_bind].
  rewrite !(store_Some _ _ _ _ Hsub). cbn [mbind option_bind].
  destruct (decide (mode_ = INPUT)); [|destruct (old =? mode_code INPUT)];
    cbn [mbind option_bind];
    (destruct (bool_decide (mode_ = OUTPUT) && negb (old =? mode_code OUTPUT));
     cbn [mbind option_bind _digital_port _pin_mode firmata set_subscribed_ports
          set_digital_port];
     rewrite ?Hv; cbn [mbind option_bind]; rewrite ?(store_Some _ _ _ _ Hv);
     cbn [mbind option_bind _digital_port _pin_mode firmata set_subscribed_ports
          set_digital_port];
     rewrite (store_Some _ _ _ _ Hold); cbn [mbind option_bind]; eauto).
Qed.

Lemma subscription_inv_eq d d' :
  _pin_mode d' = _pin_mode d -> _subscribed_ports d' = _subscribed_ports d ->
  subscription_inv d -> subscription_inv d'.
Proof. unfold subscription_inv. intros -> ->. auto. Qed.

Lemma pin_same_port p q :
  0 <= p -> 0 <= q -> pin_port p = pin_port q -> p mod 8 = q mod 8 -> p = q.
Proof.
  unfold pin_port. intros Hp Hq Hd Hm.
  rewrite (Z.div_mod p 8), (Z.div_mod q 8) by lia. congruence.
Qed.

Lemma pinMode_inv p mode_ d d' :
  pinMode p mode_ d = Some d' -> subscription_inv d -> subscription_inv d'.
Proof.
  intros H Hinv. apply pinMode_effect in H
    as (old & Hold & Hm & _ & _ & _ & Hsub).
  pose proof (at_Some _ _ _ Hold) as [Hp Hold'].
  intros q m sub Hq Hs. rewrite Hm in Hq.
  pose proof (at_Some _ _ _ Hq) as [Hq0 _].
  assert (Hr : 0 <= q mod 8 < 8) by (apply Z.mod_pos_bound; lia).
  assert (Hport : 0 <= pin_port p /\ 0 <= pin_port q)
    by (unfold pin_port; split; apply Z.div_pos; lia).
  destruct (decide (q = p)) as [->|Hqp].
  - (* the pin whose mode changes *)
    rewrite (at_store_same _ _ _ _ Hold) in Hq. injection Hq as <-.
    destruct Hsub as [(-> & s0 & Hs0 & Hs') | [(Hne & Ho & s0 & Hs0 & Hs') | (Hne & Ho & Hs')]];
      rewrite Hs' in Hs.
    + rewrite (at_store_same _ _ _ _ Hs0) in Hs. injection Hs as <-.
      rewrite or8_testbit, pin_mask_testbit, Z.eqb_refl, orb_true_r by lia.
      split; reflexivity.
    + rewrite (at_store_same _ _ _ _ Hs0) in Hs. injection Hs as <-.
      rewrite and_not8_testbit, pin_mask_testbit, Z.eqb_refl, andb_false_r by lia.
      split; [discriminate|]. intros Hc. apply mode_code_inj in Hc. contradiction.
    + specialize (Hinv p old sub Hold Hs).
      split; [intros Hb; apply Hinv in Hb; contradiction|].
      intros Hc. apply mode_code_inj in Hc. contradiction.
  - (* any other pin *)
    rewrite at_store_other in Hq by lia.
    assert (Hbit : forall s0 f,
      at_ (_subscribed_ports d) (pin_port p) = Some s0 ->
      (forall j, 0 <= j < 8 -> j <> p mod 8 -> Z.testbit (f s0) j = Z.testbit s0 j) ->
      at_ (<[Z.to_nat (pin_port p) := f s0]> (_subscribed_ports d)) (pin_port q) = Some sub ->
      Z.testbit sub (q mod 8) = true <-> m = mode_code INPUT).
    { intros s0 f Hs0 Hf Hs1.
      destruct (decide (pin_port q = pin_port p)) as [Heq|Hneq].
      - rewrite Heq in Hs1. rewrite (at_store_same _ _ _ _ Hs0) in Hs1.
        injection Hs1 as <-. rewrite Hf.
        + apply Hinv; [exact Hq | rewrite Heq; exact Hs0].
        + lia.
        + intros Hmod. apply Hqp. apply pin_same_port; auto.
      - rewrite at_store_other in Hs1 by lia. apply Hinv; assumption. }
    destruct Hsub as [(-> & s0 & Hs0 & Hs') | [(Hne & Ho & s0 & Hs0 & Hs') | (Hne & Ho & Hs')]];
      rewrite Hs' in Hs.
    + apply (Hbit s0 (fun s => or8 s (pin_mask p)) Hs0); [|exact Hs].
      intros j Hj Hjp. rewrite or8_testbit, pin_mask_testbit by lia.
      destruct (Z.eqb_spec (p mod 8) j); [congruence | apply orb_false_r].
    + apply (Hbit s0 (fun s => and_not8 s (pin_mask p)) Hs0); [|exact Hs].
      intros j Hj Hjp. rewrite and_not8_testbit, pin_mask_testbit by lia.
      destruct (Z.eqb_spec (p mod 8) j); [congruence | apply andb_true_r].
    + apply Hinv; assumption.
Qed.

Lemma initialize_inv d e : subscription_inv (raise e (initialize d)).
Proof.
  intros p m sub Hm Hs.
  cbn [_pin_mode _subscribed_ports raise initialize] in Hm, Hs.
  apply at_Some in Hm as [_ Hm]. apply at_Some in Hs as [_ Hs].
  apply lookup_replicate in Hm as [-> _]. apply lookup_replicate in Hs as [-> _].
  rewrite Z.bits_0. split; discriminate.
Qed.

Lemma pinMode_String_inv name mode_ d d' :
  pinMode_String name mode_ d = Some d' -> subscription_inv d -> subscription_inv d'.
Proof.
  unfold pinMode_String. destruct (_ =? _).
  - intros [= <-]. auto.
  - apply pinMode_inv.
Qed.

Lemma digitalWrite_inv p s d d' :
  digitalWrite p s d = Some d' -> subscription_inv d -> subscription_inv d'.
Proof.
  unfold digitalWrite. intros H Hinv. bind_inv H.
  assert (Hw : forall d1, subscription_inv d1 ->
    (at_ (_digital_port d1) (pin_port p) ≫= fun v =>
       store (_digital_port d1) (pin_port p)
         (if negb (state_code s =? 0)
          then or8 v (pin_mask p) else and_not8 v (pin_mask p)) ≫= fun ports =>
       Some (firmata
               [f_sendDigitalPort (pin_port p)
                  (if negb (state_code s =? 0)
                   then or8 v (pin_mask p) else and_not8 v (pin_mask p))]
               (set_digital_port ports d1))) = Some d' ->
    subscription_inv d').
  { intros d1 H1 Hd. bind_inv Hd. bind_inv Hd. injection Hd as <-.
    revert H1. apply subscription_inv_eq; reflexivity. }
  destruct (negb (z =? mode_code OUTPUT)).
  - destruct (z =? mode_code PWM).
    + bind_inv H. apply (Hw r); [|exact H]. eapply pinMode_inv; eauto.
    + injection H as <-. exact Hinv.
  - apply (Hw d); assumption.
Qed.

Lemma digitalRead_inv p d r :
  digitalRead p d = Some r -> subscription_inv d -> subscription_inv (snd r).
Proof.
  unfold digitalRead. intros H Hinv. bind_inv H. bind_inv H. bind_inv H.
  injection H as <-. cbn [snd].
  destruct (negb (z =? mode_code INPUT)); [destruct (z =? mode_code ANALOG)|].
  - eapply pinMode_inv; eauto.
  - injection E0 as <-. exact Hinv.
  - injection E0 as <-. exact Hinv.
Qed.

Lemma analogWrite_inv p v d d' :
  analogWrite p v d = Some d' -> subscription_inv d -> subscription_inv d'.
Proof.
  unfold analogWrite. intros H Hinv. bind_inv H.
  destruct (negb (z =? mode_code PWM)); [destruct (z =? mode_code OUTPUT)|].
  - bind_inv H. bind_inv H. injection H as <-.
    apply store_inv in E1 as [-> _].
    pose proof (pinMode_inv _ _ _ _ E0 Hinv) as Hr.
    apply pinMode_effect in E0 as (old & _ & Hm & _).
    revert Hr. apply subscription_inv_eq; [|reflexivity].
    cbn [_pin_mode firmata set_pin_mode]. rewrite Hm.
    apply list_insert_insert_eq.
  - injection H as <-. exact Hinv.
  - injection H as <-. revert Hinv. apply subscription_inv_eq; reflexivity.
Qed.

Lemma analogRead_inv p d r :
  analogRead p d = Some r -> subscription_inv d -> subscription_inv (snd r).
Proof.
  unfold analogRead. intros H Hinv. bind_inv H.
  assert (Hread : forall d1, subscription_inv d1 ->
    (if p <? _num_analog_pins d1
     then at_ (_analog_pins d1) p ≫= fun v => Some (v, d1)
     else Some (u16 (-1), d1)) = Some r -> subscription_inv (snd r)).
  { intros d1 H1 Hd. destruct (p <? _num_analog_pins d1).
    - bind_inv Hd. injection Hd as <-. exact H1.
    - injection Hd as <-. exact H1. }
  destruct (negb (z =? mode_code ANALOG)); [destruct (z =? mode_code INPUT)|].
  - bind_inv H. apply (Hread r0); [|exact H]. eapply pinMode_inv; eauto.
  - injection H as <-. exact Hinv.
  - apply (Hread d); assumption.
Qed.

Lemma analogRead_String_inv name d r :
  analogRead_String name d = Some r -> subscription_inv d -> subscription_inv (snd r).
Proof.
  unfold analogRead_String. destruct (_ =? _).
  - intros [= <-]. auto.
  - apply analogRead_inv.
Qed.

Lemma onDigitalReport_inv port value d d' :
  onDigitalReport port value d = Some d' -> subscription_inv d -> subscription_inv d'.
Proof.
  unfold onDigitalReport. intros H Hinv.
  bind_inv H. bind_inv H. bind_inv H.
  match type of H with pin_events 8 ?a ?b ?c ?e ?f = _ =>
    destruct (pin_events_cache 8 a b c e f) as (d2 & Hd & Hc); [apply u8_range|]
  end.
  rewrite Hd in H. injection H as <-.
  injection Hc as _ _ _ Hs _ _ Hm _. revert Hinv.
  apply subscription_inv_eq; assumption.
Qed.

Lemma onAnalogReport_inv pin value d d' :
  onAnalogReport pin value d = Some d' -> subscription_inv d -> subscription_inv d'.
Proof.
  unfold onAnalogReport. intros H. bind_inv H. injection H as <-.
  apply subscription_inv_eq; reflexivity.
Qed.

Lemma run_inv o d d' :
  run o d = Some d' -> subscription_inv d -> subscription_inv d'.
Proof.
  destruct o; cbn [run].
  - apply pinMode_inv.
  - apply pinMode_String_inv.
  - apply digitalWrite_inv.
  - destruct (digitalRead pin d) as [r|] eqn:E; [|discriminate].
    intros [= <-]. eapply digitalRead_inv; eauto.
  - apply analogWrite_inv.
  - destruct (analogRead pin d) as [r|] eqn:E; [|discriminate].
    intros [= <-]. eapply analogRead_inv; eauto.
  - destruct (analogRead_String name d) as [r|] eqn:E; [|discriminate].
    intros [= <-]. eapply analogRead_String_inv; eauto.
  - apply onDigitalReport_inv.
  - apply onAnalogReport_inv.
  - unfold onPinCapabilityResponseReceived.
    destruct (scan_capabilities data d); [|discriminate].
    intros [= <-] _. apply initialize_inv.
Qed.

(** C10: in every state the device object reaches from its initialisation,
    through any sequence of public operations (with their mode
    corrections) and inbound callbacks, the subscription bit
    [1 << (p % 8)] of [_subscribed_ports[p / 8]] is set if and only if the
    cached mode of pin [p] is INPUT. *)
Theorem subscription_bit_iff_input d :
  reachable d -> subscription_inv d.
Proof.
  induction 1 as [d0 data d H | d o d' _ IH H].
  - unfold onPinCapabilityResponseReceived in H.
    destruct (scan_capabilities data d0); [|discriminate].
    injection H as <-. apply initialize_inv.
  - eapply run_inv; eauto.
Qed.

Lemma subscription_bit_iff_input_witness :
  exists d0 d1,
    onPinCapabilityResponseReceived [0x7F; 0x7F] (fresh 1 8 6) = Some d0 /\
    pinMode 1 INPUT d0 = Some d1 /\
    subscription_inv d1.
Proof.
  match eval vm_compute in
    (onPinCapabilityResponseReceived [0x7F; 0x7F] (fresh 1 8 6)) with
  | Some ?d0 =>
      exists d0;
      match eval vm_compute in (pinMode 1 INPUT d0) with
      | Some ?d1 => exists d1
      end
  end.
  split; [vm_compute; reflexivity|]. split; [vm_compute; reflexivity|].
  apply subscription_bit_iff_input.
  eapply (reach_step _ (call_pinMode 1 INPUT)).
  - eapply (reach_ready (fresh 1 8 6) [0x7F; 0x7F]). vm_compute. reflexivity.
  - vm_compute. reflexivity.
Defined.

(** ** [parsePinFromAnalogString] *)

Lemma digit_value_range c v : digit_value c = Some v -> 0 <= v <= 9.
Proof.
  unfold digit_value. destruct (_ && _) eqn:E; [|discriminate].
  intros [= <-]. apply andb_true_iff in E as [E1 E2]. zbool. lia.
Qed.

Lemma digit_zero c : digit_value c = Some 0 -> c = "0"%char.
Proof.
  unfold digit_value. destruct (_ && _); [|discriminate]. intros [= H].
  assert (Hn : N_of_ascii c = 48%N) by lia.
  rewrite <- (ascii_N_embedding c), Hn. reflexivity.
Qed.

Lemma digits_value_ge s acc : 0 <= acc -> acc <= digits_value s acc.
Proof.
  revert acc. induction s as [|c s IH]; intros acc Hacc; simpl; [lia|].
  destruct (digit_value c) as [v|] eqn:E; [|lia].
  apply digit_value_range in E. specialize (IH (acc * 10 + v)). lia.
Qed.

(** A number that starts with a digit is read from that digit on. *)
Lemma wcstol_digit_first c r :
  is_digit c = true -> wcstol (String c r) = clamp_long (digits_value (String c r) 0).
Proof.
  destruct c as [[] [] [] [] [] [] [] []]; intros H; try discriminate H; reflexivity.
Qed.

(** What follows the digits does not count. *)
Lemma digits_value_app ds rest acc :
  all_digits ds = true ->
  (rest = EmptyString \/ exists x r, rest = String x r /\ is_digit x = false) ->
  digits_value (ds ++ rest) acc = digits_value ds acc.
Proof.
  intros Hd Hr. revert acc Hd. induction ds as [|c ds IH]; intros acc Hd.
  - simpl. destruct Hr as [-> | (x & r & -> & Hx)]; [reflexivity|].
    simpl. unfold is_digit in Hx. destruct (digit_value x); [discriminate|reflexivity].
  - simpl in *. apply andb_true_iff in Hd as [Hc Hd].
    destruct (digit_value c); [apply IH; exact Hd | reflexivity].
Qed.

Lemma parse_digits c d1 r :
  c = "A"%char \/ c = "a"%char ->
  is_digit d1 = true ->
  parsePinFromAnalogString (String c (String d1 r))
  = u8 (clamp_long (digits_value (String d1 r) 0)).
Proof.
  intros Hc Hd. unfold parsePinFromAnalogString.
  cbn [String.length Nat.ltb Nat.leb].
  assert (negb ((c =? "a")%char || (c =? "A")%char) = false) as ->
    by (destruct Hc as [-> | ->]; reflexivity).
  rewrite (wcstol_digit_first _ _ Hd).
  destruct (_ && _) eqn:E; [|reflexivity].
  exfalso. apply andb_true_iff in E as [E0 E1].
  apply negb_true_iff, Ascii.eqb_neq in E1.
  unfold is_digit in Hd. cbn [digits_value] in E0.
  destruct (digit_value d1) as [v|] eqn:Ev; [|discriminate].
  pose proof (digit_value_range _ _ Ev) as Hv.
  assert (v <> 0) by (intros ->; apply E1, digit_zero, Ev).
  pose proof (digits_value_ge r (0 * 10 + v) ltac:(lia)) as Hge.
  zbool. revert E0. unfold clamp_long, LONG_MAX, LONG_MIN.
  repeat case_match; lia.
Qed.

(** C6 (amended): [parsePinFromAnalogString] returns the parse-failure
    value [0xFF] for every name of fewer than two characters, for every
    name whose first character is neither ['A'] nor ['a'], and for every
    name whose second character is neither a digit, a white-space
    character nor a sign.  For ['A'] or ['a'] followed by a non-empty run
    of decimal digits of value [n < 255] and nothing else it returns [n].
    Characters that follow the leading digits are ignored, so that a name
    with trailing non-digits is accepted with the value of its leading
    digits.  ["A2"] parses to 2; ["B2"], ["A"] and [""] fail. *)
Theorem parsePinFromAnalogString_accepts :
  (forall s, (String.length s < 2)%nat -> parsePinFromAnalogString s = u8 (-1)) /\
  (forall c rest, c <> "A"%char -> c <> "a"%char ->
     parsePinFromAnalogString (String c rest) = u8 (-1)) /\
  (forall c d1 rest,
     is_digit d1 = false -> iswspace d1 = false ->
     d1 <> "+"%char -> d1 <> "-"%char ->
     parsePinFromAnalogString (String c (String d1 rest)) = u8 (-1)) /\
  (forall c ds, well_formed_name (String c ds) = true -> decimal ds < 255 ->
     parsePinFromAnalogString (String c ds) = decimal ds) /\
  (forall c ds rest, well_formed_name (String c ds) = true ->
     (rest = EmptyString \/ exists x r, rest = String x r /\ is_digit x = false) ->
     parsePinFromAnalogString (String c (ds ++ rest))
     = parsePinFromAnalogString (String c ds)) /\
  parsePinFromAnalogString "A2" = 2 /\
  parsePinFromAnalogString "B2" = u8 (-1) /\
  parsePinFromAnalogString "A" = u8 (-1) /\
  parsePinFromAnalogString "" = u8 (-1).
Proof.
  assert (Hwf : forall c ds, well_formed_name (String c ds) = true ->
    (c = "A"%char \/ c = "a"%char) /\
    exists d1 r, ds = String d1 r /\ is_digit d1 = true /\ all_digits ds = true).
  { intros c ds H. cbn [well_formed_name] in H.
    apply andb_true_iff in H as [H Hd]. apply andb_true_iff in H as [Hc Hn].
    split.
    - apply orb_true_iff in Hc as [Hc | Hc]; apply Ascii.eqb_eq in Hc; auto.
    - destruct ds as [|d1 r]; [discriminate Hn|].
      exists d1, r. split; [reflexivity|]. split; [|exact Hd].
      cbn [all_digits] in Hd. apply andb_true_iff in Hd as [Hd _]. exact Hd. }
  repeat split.
  - intros s Hs. unfold parsePinFromAnalogString.
    apply Nat.ltb_lt in Hs. rewrite Hs. reflexivity.
  - intros c rest HA Ha. unfold parsePinFromAnalogString.
    destruct (_ <? _)%nat; [reflexivity|].
    destruct rest as [|d1 r]; [reflexivity|].
    apply Ascii.eqb_neq in HA, Ha. rewrite HA, Ha. reflexivity.
  - intros c d1 rest Hd Hw Hp Hm. unfold parsePinFromAnalogString.
    cbn [String.length Nat.ltb Nat.leb].
    destruct (negb _); [reflexivity|].
    assert (wcstol (String d1 rest) = 0) as ->.
    { unfold wcstol. cbn [skip_space]. rewrite Hw.
      assert (digits_value (String d1 rest) 0 = 0) as Hz.
      { cbn [digits_value]. unfold is_digit in Hd.
        destruct (digit_value d1); [discriminate | reflexivity]. }
      destruct d1 as [[] [] [] [] [] [] [] []]; try congruence;
        rewrite Hz; reflexivity. }
    assert ((d1 =? "0")%char = false) as ->.
    { apply Ascii.eqb_neq. intros ->. discriminate Hd. }
    reflexivity.
  - intros c ds H Hlt. apply Hwf in H as (Hc & d1 & r & -> & Hd & _).
    rewrite parse_digits by assumption. unfold decimal in *.
    pose proof (digits_value_ge (String d1 r) 0 ltac:(lia)) as Hge.
    unfold clamp_long, LONG_MAX, LONG_MIN, u8.
    repeat case_match; zbool; try lia. apply Z.mod_small. lia.
  - intros c ds rest H Hrest. apply Hwf in H as (Hc & d1 & r & -> & Hd & Hall).
    change (String d1 r ++ rest)%string with (String d1 (r ++ rest)%string).
    rewrite !parse_digits by assumption.
    change (String d1 (r ++ rest)%string) with (String d1 r ++ rest)%string.
    rewrite digits_value_app by assumption. reflexivity.
Qed.

Lemma parsePinFromAnalogString_accepts_witness :
  parsePinFromAnalogString "a13" = 13 /\
  parsePinFromAnalogString "A13 volts" = parsePinFromAnalogString "A13" /\
  parsePinFromAnalogString "Ax" = u8 (-1) /\
  parsePinFromAnalogString "D13" = u8 (-1).
Proof.
  destruct parsePinFromAnalogString_accepts as (_ & Hprefix & Hsecond & Hnum & Htrail & _).
  split; [apply (Hnum "a"%char "13"%string); [reflexivity | vm_compute; reflexivity]|].
  split; [apply (Htrail "A"%char "13"%string " volts"%string);
          [reflexivity | right; eexists _, _; split; reflexivity]|].
  split; [apply (Hsecond "A"%char "x"%char ""%string); [reflexivity | reflexivity | |];
          discriminate|].
  apply (Hprefix "D"%char "13"%string); discriminate.
Defined.

(** C6, as claimed, fails: ["A2x"] is not 'A' followed by a decimal
    integer and nothing else, and it is accepted, with value 2. *)
Lemma trailing_characters_accepted :
  well_formed_name "A2x" = false /\
  parsePinFromAnalogString "A2x" = 2 /\
  ~ (parsePinFromAnalogString "A2x" <> u8 (-1) <-> well_formed_name "A2x" = true).
Proof.
  split; [reflexivity|]. split; [reflexivity|].
  intros [H _]. assert (Hne : parsePinFromAnalogString "A2x" <> u8 (-1))
    by (vm_compute; discriminate).
  apply H in Hne. vm_compute in Hne. discriminate.
Qed.

(** ** The named [analogRead] *)

(** The named overload hands [parsed_pin + _analog_offset] to the numeric
    one, which adds [_analog_offset] again before it looks up the mode. *)
Lemma analogRead_String_other_mode name d m :
  parsePinFromAnalogString name <> u8 (-1) ->
  at_ (_pin_mode d)
    (u8 (u8 (parsePinFromAnalogString name + _analog_offset d) + _analog_offset d))
  = Some m ->
  m <> mode_code ANALOG -> m <> mode_code INPUT ->
  analogRead_String name d = Some (0xFFFF, d).
Proof.
  intros Hp Hm Ha Hi. unfold analogRead_String.
  destruct (_ =? _) eqn:E; [zbool; contradiction|].
  eapply analogRead_other_mode; eauto.
Qed.

(** C5: a board whose capability response describes two digital pins and
    then two analog pins gets [analog_offset = 2].  With pin ["A0"] put in
    ANALOG mode (absolute pin 2) and the value 512 reported for analog
    pin 0, [analogRead(0)] returns 512, but [analogRead("A0")] returns
    [0xFFFF]: it consults the mode of pin [2 + 2 = 4], an OUTPUT pin. *)
Theorem analogRead_String_adds_offset_twice :
  exists d0 d1 d2,
    onPinCapabilityResponseReceived
      [0x00; 0x01; 0x01; 0x01; 0x7F;
       0x00; 0x01; 0x01; 0x01; 0x7F;
       0x00; 0x01; 0x01; 0x01; 0x02; 0x0A; 0x7F;
       0x00; 0x01; 0x01; 0x01; 0x02; 0x0A; 0x7F] (fresh 16 128 6) = Some d0 /\
    counters d0 = (4, 2, 2) /\
    pinMode_String "A0" ANALOG d0 = Some d1 /\
    onAnalogReport 0 512 d1 = Some d2 /\
    getPinMode_String "A0" d2 = Some (mode_code ANALOG) /\
    getPinMode (_analog_offset d2 + 0) d2 = Some (mode_code ANALOG) /\
    at_ (_analog_pins d2) 0 = Some 512 /\
    analogRead 0 d2 = Some (512, d2) /\
    analogRead_String "A0" d2 = Some (0xFFFF, d2) /\
    getPinMode (_analog_offset d2 + _analog_offset d2 + 0) d2 = Some (mode_code OUTPUT).
Proof.
  match eval vm_compute in
    (onPinCapabilityResponseReceived
      [0x00; 0x01; 0x01; 0x01; 0x7F;
       0x00; 0x01; 0x01; 0x01; 0x7F;
       0x00; 0x01; 0x01; 0x01; 0x02; 0x0A; 0x7F;
       0x00; 0x01; 0x01; 0x01; 0x02; 0x0A; 0x7F] (fresh 16 128 6)) with
  | Some ?d0 =>
      exists d0;
      match eval vm_compute in (pinMode_String "A0" ANALOG d0) with
      | Some ?d1 =>
          exists d1;
          match eval vm_compute in (onAnalogReport 0 512 d1) with
          | Some ?d2 => exists d2
          end
      end
  end.
  repeat split; vm_compute; reflexivity.
Qed.

(** * Further properties of the cache operations *)

(** ** [getPinMap] *)

(** X1: [getPinMap] tells pins apart: two pins with the same port and the same
    mask are the same pin, and the mask is the single bit [pin % 8] of a
    byte. *)
Theorem getPinMap_injective p q :
  0 <= p -> 0 <= q ->
  pin_port p = pin_port q -> pin_mask p = pin_mask q -> p = q.
Proof.
  intros Hp Hq Hport Hmask. apply pin_same_port; try assumption.
  rewrite !pin_mask_pow2 in Hmask.
  pose proof (Z.mod_pos_bound p 8 ltac:(lia)).
  pose proof (Z.mod_pos_bound q 8 ltac:(lia)).
  apply (Z.pow_inj_r 2); lia.
Qed.

Lemma getPinMap_injective_witness : 13 = 13.
Proof.
  apply (getPinMap_injective 13 13); [lia | lia | reflexivity | reflexivity].
Defined.

(** ** [pinMode] in full *)

(** Inside the arrays [pinMode] succeeds, and this is every field of the
    state it leaves. *)
Lemma pinMode_fields p mode_ d old sub v :
  at_ (_pin_mode d) p = Some old ->
  at_ (_subscribed_ports d) (pin_port p) = Some sub ->
  at_ (_digital_port d) (pin_port p) = Some v ->
  exists d',
    pinMode p mode_ d = Some d' /\
    _pin_mode d' = <[Z.to_nat p := mode_code mode_]> (_pin_mode d) /\
    _subscribed_ports d'
    = (if decide (mode_ = INPUT)
       then <[Z.to_nat (pin_port p) := or8 sub (pin_mask p)]> (_subscribed_ports d)
       else if old =? mode_code INPUT
       then <[Z.to_nat (pin_port p) := and_not8 sub (pin_mask p)]> (_subscribed_ports d)
       else _subscribed_ports d) /\
    _digital_port d'
    = (if bool_decide (mode_ = OUTPUT) && negb (old =? mode_code OUTPUT)
       then <[Z.to_nat (pin_port p) := and_not8 v (pin_mask p)]> (_digital_port d)
       else _digital_port d) /\
    _analog_pins d' = _analog_pins d /\
    counters d' = counters d /\
    raised d' = raised d /\
    firmata_calls d'
    = firmata_calls d
      ++ [f_lock; f_write (Cmd SET_PIN_MODE); f_write (Raw p);
          f_write (Raw (mode_code mode_))]
      ++ (if decide (mode_ = INPUT)
          then [f_write (CmdOr REPORT_DIGITAL_PIN (Z.land (pin_port p) 0x0F));
                f_write (Raw (or8 sub (pin_mask p)))]
          else if old =? mode_code INPUT
          then [f_write (CmdOr REPORT_DIGITAL_PIN (Z.land (pin_port p) 0x0F));
                f_write (Raw (and_not8 sub (pin_mask p)))]
          else [])
      ++ [f_flush; f_unlock].
Proof.
  intros Hold Hsub Hv. unfold pinMode. cbn [_pin_mode firmata].
  rewrite Hold. cbn [mbind option_bind _subscribed_ports firmata].
  rewrite Hsub. cbn [mbind option_bind].
  rewrite !(store_Some _ _ _ _ Hsub). cbn [mbind option_bind].
  destruct (decide (mode_ = INPUT)); [|destruct (old =? mode_code INPUT)];
    cbn [mbind option_bind];
    (destruct (bool_decide (mode_ = OUTPUT) && negb (old =? mode_code OUTPUT));
     cbn [mbind option_bind _digital_port _pin_mode firmata set_subscribed_ports
          set_digital_port];
     rewrite ?Hv; cbn [mbind option_bind]; rewrite ?(store_Some _ _ _ _ Hv);
     cbn [mbind option_bind _digital_port _pin_mode firmata set_subscribed_ports
          set_digital_port];
     rewrite (store_Some _ _ _ _ Hold); cbn [mbind option_bind];
     eexists; (split; [reflexivity|]);
     cbn [_pin_mode _subscribed_ports _digital_port _analog_pins raised
          firmata_calls counters _total_pins _num_analog_pins _analog_offset
          set_pin_mode set_digital_port set_subscribed_ports firmata];
     repeat split; rewrite <- ?app_assoc; reflexivity).
Qed.

Lemma at_insert_ne a i j v : 0 <= i -> i <> j -> at_ (<[Z.to_nat i := v]> a) j = at_ a j.
Proof.
  intros Hi Hne. unfold at_. destruct (j <? 0) eqn:E; [reflexivity|].
  zbool. apply list_lookup_insert_ne. lia.
Qed.

Lemma pin_port_nonneg p : 0 <= p -> 0 <= pin_port p.
Proof. intros Hp. unfold pin_port. apply Z.div_pos; lia. Qed.

Lemma pin_port_neg q : 0 <= pin_port q -> 0 <= q.
Proof. unfold pin_port. intros H. destruct (Z_lt_le_dec q 0); [|assumption].
  assert (q / 8 < 0) by (apply Z.div_lt_upper_bound; lia). lia.
Qed.

(** Storing a byte in the port of [p] that agrees with the old one on
    every bit but that of [p] leaves the bits of the other pins alone. *)
Lemma port_bit_other ports p q v v' :
  0 <= p -> q <> p ->
  at_ ports (pin_port p) = Some v ->
  (forall j, 0 <= j < 8 -> j <> p mod 8 -> Z.testbit v' j = Z.testbit v j) ->
  (w ← at_ (<[Z.to_nat (pin_port p) := v']> ports) (pin_port q);
   Some (Z.testbit w (q mod 8)))
  = (w ← at_ ports (pin_port q); Some (Z.testbit w (q mod 8))).
Proof.
  intros Hp Hne Hv Hbits. pose proof (pin_port_nonneg p Hp) as Hpp.
  destruct (decide (pin_port q = pin_port p)) as [Heq|Hport].
  - rewrite Heq, (at_store_same _ _ _ _ Hv), Hv. cbn [mbind option_bind].
    assert (0 <= q) by (apply pin_port_neg; lia).
    rewrite Hbits; [reflexivity | apply Z.mod_pos_bound; lia |].
    intros Hm. apply Hne. apply pin_same_port; auto.
  - rewrite at_insert_ne by auto. reflexivity.
Qed.

Lemma and_not8_other v p j :
  0 <= j < 8 -> j <> p mod 8 -> Z.testbit (and_not8 v (pin_mask p)) j = Z.testbit v j.
Proof.
  intros Hj Hne. rewrite and_not8_testbit, pin_mask_testbit by lia.
  destruct (Z.eqb_spec (p mod 8) j); [congruence | apply andb_true_r].
Qed.

Lemma or8_other v p j :
  0 <= j < 8 -> j <> p mod 8 -> Z.testbit (or8 v (pin_mask p)) j = Z.testbit v j.
Proof.
  intros Hj Hne. rewrite or8_testbit, pin_mask_testbit by lia.
  destruct (Z.eqb_spec (p mod 8) j); [congruence | apply orb_false_r].
Qed.

Lemma and_not8_own v p : Z.testbit (and_not8 v (pin_mask p)) (p mod 8) = false.
Proof.
  pose proof (Z.mod_pos_bound p 8 ltac:(lia)).
  rewrite and_not8_testbit, pin_mask_testbit, Z.eqb_refl by lia. apply andb_false_r.
Qed.

Lemma or8_own v p : Z.testbit (or8 v (pin_mask p)) (p mod 8) = true.
Proof.
  pose proof (Z.mod_pos_bound p 8 ltac:(lia)).
  rewrite or8_testbit, pin_mask_testbit, Z.eqb_refl by lia. apply orb_true_r.
Qed.

(** X2: [pinMode] then [getPinMode]: the pin reports the mode just set, every
    other pin the mode it had. *)
Theorem pinMode_then_getPinMode p mode_ d old sub v :
  at_ (_pin_mode d) p = Some old ->
  at_ (_subscribed_ports d) (pin_port p) = Some sub ->
  at_ (_digital_port d) (pin_port p) = Some v ->
  exists d',
    pinMode p mode_ d = Some d' /\
    getPinMode p d' = Some (mode_code mode_) /\
    forall q, q <> p -> getPinMode q d' = getPinMode q d.
Proof.
  intros Hold Hsub Hv.
  destruct (pinMode_fields p mode_ d old sub v Hold Hsub Hv)
    as (d' & Hd & Hm & _).
  exists d'. split; [exact Hd|]. unfold getPinMode. rewrite Hm.
  split; [eapply at_store_same; eauto|].
  intros q Hq. apply at_insert_ne; [|congruence].
  apply at_Some in Hold. lia.
Qed.

Lemma pinMode_then_getPinMode_witness :
  exists d',
    pinMode 9 SERVO (initialize (fresh 16 128 6)) = Some d' /\
    getPinMode 9 d' = Some (mode_code SERVO) /\
    forall q, q <> 9 -> getPinMode q d' = getPinMode q (initialize (fresh 16 128 6)).
Proof.
  apply (pinMode_then_getPinMode 9 SERVO _ (mode_code OUTPUT) 0 0); reflexivity.
Defined.

(** X3: A pin that enters OUTPUT mode starts LOW: [pinMode(p, OUTPUT)] on a pin
    in any other mode clears its cached bit, whatever was cached, and
    [digitalRead] then returns LOW. *)
Theorem pinMode_OUTPUT_starts_LOW p d old sub v :
  at_ (_pin_mode d) p = Some old ->
  at_ (_subscribed_ports d) (pin_port p) = Some sub ->
  at_ (_digital_port d) (pin_port p) = Some v ->
  old <> mode_code OUTPUT ->
  exists d',
    pinMode p OUTPUT d = Some d' /\
    pin_bit d' p = Some false /\
    digitalRead p d' = Some (LOW, d').
Proof.
  intros Hold Hsub Hv Hne.
  destruct (pinMode_fields p OUTPUT d old sub v Hold Hsub Hv)
    as (d' & Hd & Hm & _ & Hdig & _).
  exists d'. split; [exact Hd|].
  assert ((old =? mode_code OUTPUT) = false) as Ho by (zbool; exact Hne).
  rewrite Ho in Hdig. cbn in Hdig.
  assert (Hbit : at_ (_digital_port d') (pin_port p)
                 = Some (and_not8 v (pin_mask p)))
    by (rewrite Hdig; eapply at_store_same; eauto).
  split.
  - unfold pin_bit. rewrite Hbit. cbn [mbind option_bind].
    rewrite and_not8_own. reflexivity.
  - unfold digitalRead. rewrite Hm, (at_store_same _ _ _ _ Hold).
    cbn [mbind option_bind]. change (mode_code OUTPUT =? mode_code INPUT) with false.
    change (mode_code OUTPUT =? mode_code ANALOG) with false.
    cbn [negb mbind option_bind]. rewrite Hbit. cbn [mbind option_bind].
    rewrite land_pin_mask, and_not8_own. reflexivity.
Qed.

Lemma pinMode_OUTPUT_starts_LOW_witness :
  exists d',
    pinMode 3 OUTPUT
      (set_digital_port [0xFF] (set_pin_mode (replicate 8 (mode_code PWM))
                                  (initialize (fresh 1 8 6)))) = Some d' /\
    pin_bit d' 3 = Some false /\
    digitalRead 3 d' = Some (LOW, d').
Proof.
  apply (pinMode_OUTPUT_starts_LOW 3 _ (mode_code PWM) 0 0xFF);
    [reflexivity | reflexivity | reflexivity | simpl; lia].
Defined.

(** X4: [pinMode] never touches the cached level of another pin, and keeps the
    level of its own pin unless that pin enters OUTPUT mode from another
    mode; in particular [pinMode(p, OUTPUT)] on an OUTPUT pin keeps the
    level last written. *)
Theorem pinMode_keeps_levels p mode_ d old sub v q :
  at_ (_pin_mode d) p = Some old ->
  at_ (_subscribed_ports d) (pin_port p) = Some sub ->
  at_ (_digital_port d) (pin_port p) = Some v ->
  q <> p \/ mode_ <> OUTPUT \/ old = mode_code OUTPUT ->
  exists d', pinMode p mode_ d = Some d' /\ pin_bit d' q = pin_bit d q.
Proof.
  intros Hold Hsub Hv Hq.
  destruct (pinMode_fields p mode_ d old sub v Hold Hsub Hv)
    as (d' & Hd & _ & _ & Hdig & _).
  exists d'. split; [exact Hd|]. unfold pin_bit. rewrite Hdig.
  destruct (bool_decide (mode_ = OUTPUT) && negb (old =? mode_code OUTPUT)) eqn:E;
    [|reflexivity].
  apply andb_true_iff in E as [E1 E2]. apply bool_decide_eq_true in E1.
  apply negb_true_iff in E2. zbool.
  destruct Hq as [Hq | [Hq | Hq]]; [|contradiction|contradiction].
  apply (port_bit_other _ p q v); auto.
  - apply at_Some in Hold. lia.
  - intros j Hj Hne. apply and_not8_other; auto.
Qed.

Lemma pinMode_keeps_levels_witness :
  exists d',
    pinMode 3 OUTPUT
      (set_digital_port [0xFF] (set_pin_mode (replicate 8 (mode_code PWM))
                                  (initialize (fresh 1 8 6)))) = Some d' /\
    pin_bit d' 4
    = pin_bit (set_digital_port [0xFF] (set_pin_mode (replicate 8 (mode_code PWM))
                                          (initialize (fresh 1 8 6)))) 4.
Proof.
  apply (pinMode_keeps_levels 3 OUTPUT _ (mode_code PWM) 0 0xFF 4);
    [reflexivity | reflexivity | reflexivity | left; lia].
Defined.

(** X5: The subscription frame mirrors the cache: when [pinMode] sets a pin to
    INPUT, or moves a pin away from INPUT, the calls it makes on the
    protocol object are the SET_PIN_MODE frame, then the REPORT_DIGITAL_PIN
    frame carrying exactly the subscription mask now cached for the port,
    then the flush; in every other case only the SET_PIN_MODE frame is
    written and the mask is unchanged. *)
Theorem pinMode_reports_cached_mask p mode_ d old sub v :
  at_ (_pin_mode d) p = Some old ->
  at_ (_subscribed_ports d) (pin_port p) = Some sub ->
  at_ (_digital_port d) (pin_port p) = Some v ->
  exists d' mask,
    pinMode p mode_ d = Some d' /\
    at_ (_subscribed_ports d') (pin_port p) = Some mask /\
    firmata_calls d'
    = firmata_calls d
      ++ [f_lock; f_write (Cmd SET_PIN_MODE); f_write (Raw p);
          f_write (Raw (mode_code mode_))]
      ++ (if bool_decide (mode_ = INPUT \/ old = mode_code INPUT)
          then [f_write (CmdOr REPORT_DIGITAL_PIN (Z.land (pin_port p) 0x0F));
                f_write (Raw mask)]
          else [])
      ++ [f_flush; f_unlock] /\
    (mode_ <> INPUT -> old <> mode_code INPUT -> mask = sub).
Proof.
  intros Hold Hsub Hv.
  destruct (pinMode_fields p mode_ d old sub v Hold Hsub Hv)
    as (d' & Hd & _ & Hs & _ & _ & _ & _ & Hc).
  exists d'. rewrite Hs, Hc.
  destruct (decide (mode_ = INPUT)) as [->|Hne].
  - eexists. split; [exact Hd|]. split; [eapply at_store_same; eauto|].
    split; [|congruence].
    rewrite bool_decide_eq_true_2 by auto. reflexivity.
  - destruct (old =? mode_code INPUT) eqn:Eo; zbool.
    + eexists. split; [exact Hd|]. split; [eapply at_store_same; eauto|].
      split; [|congruence].
      rewrite bool_decide_eq_true_2 by auto. reflexivity.
    + exists sub. split; [exact Hd|]. split; [exact Hsub|].
      split; [|reflexivity].
      rewrite bool_decide_eq_false_2 by (intros [?|?]; contradiction). reflexivity.
Qed.

Lemma pinMode_reports_cached_mask_witness :
  exists d' mask,
    pinMode 9 INPUT (initialize (fresh 16 128 6)) = Some d' /\
    at_ (_subscribed_ports d') (pin_port 9) = Some mask /\
    firmata_calls d'
    = firmata_calls (initialize (fresh 16 128 6))
      ++ [f_lock; f_write (Cmd SET_PIN_MODE); f_write (Raw 9);
          f_write (Raw (mode_code INPUT))]
      ++ (if bool_decide (INPUT = INPUT \/ mode_code OUTPUT = mode_code INPUT)
          then [f_write (CmdOr REPORT_DIGITAL_PIN (Z.land (pin_port 9) 0x0F));
                f_write (Raw mask)]
          else [])
      ++ [f_flush; f_unlock] /\
    (INPUT <> INPUT -> mode_code OUTPUT <> mode_code INPUT -> mask = 0).
Proof.
  apply (pinMode_reports_cached_mask 9 INPUT _ (mode_code OUTPUT) 0 0); reflexivity.
Defined.

(** ** [digitalWrite] and [digitalRead] beyond the round trip *)

(** The byte [digitalWrite] leaves in the port of the pin. *)
Lemma digitalWrite_OUTPUT_result p s d v :
  at_ (_pin_mode d) p = Some (mode_code OUTPUT) ->
  at_ (_digital_port d) (pin_port p) = Some v ->
  digitalWrite p s d
  = Some (firmata
            [f_sendDigitalPort (pin_port p)
               (if negb (state_code s =? 0)
                then or8 v (pin_mask p) else and_not8 v (pin_mask p))]
            (set_digital_port
               (<[Z.to_nat (pin_port p) :=
                    if negb (state_code s =? 0)
                    then or8 v (pin_mask p) else and_not8 v (pin_mask p)]>
                  (_digital_port d)) d)).
Proof.
  intros Hm Hv. unfold digitalWrite. rewrite Hm. cbn [mbind option_bind].
  change (mode_code OUTPUT =? mode_code OUTPUT) with true. cbn [negb].
  rewrite Hv. cbn [mbind option_bind]. rewrite (store_Some _ _ _ _ Hv).
  reflexivity.
Qed.

(** On a PWM pin [digitalWrite] is [pinMode(p, OUTPUT)] followed by the
    write of an OUTPUT pin. *)
Lemma digitalWrite_PWM_unfold p s d d1 :
  at_ (_pin_mode d) p = Some (mode_code PWM) ->
  pinMode p OUTPUT d = Some d1 ->
  at_ (_pin_mode d1) p = Some (mode_code OUTPUT) ->
  digitalWrite p s d = digitalWrite p s d1.
Proof.
  intros Hm Hd Hm1. unfold digitalWrite. rewrite Hm, Hm1. cbn [mbind option_bind].
  change (mode_code PWM =? mode_code OUTPUT) with false.
  change (mode_code PWM =? mode_code PWM) with true.
  change (mode_code OUTPUT =? mode_code OUTPUT) with true.
  cbn [negb]. rewrite Hd. reflexivity.
Qed.

Lemma digitalRead_no_correction p d m v :
  at_ (_pin_mode d) p = Some m -> m <> mode_code ANALOG ->
  at_ (_digital_port d) (pin_port p) = Some v ->
  digitalRead p d = Some (state_of_bool (Z.testbit v (p mod 8)), d).
Proof.
  intros Hm Hne Hv. unfold digitalRead. rewrite Hm. cbn [mbind option_bind].
  assert ((m =? mode_code ANALOG) = false) as -> by (zbool; exact Hne).
  destruct (negb (m =? mode_code INPUT)); cbn [mbind option_bind];
    rewrite Hv; cbn [mbind option_bind]; rewrite land_pin_mask; reflexivity.
Qed.

(** X6: [digitalWrite] acts on OUTPUT and PWM pins only: in any other cached
    mode it changes nothing and sends nothing. *)
Theorem digitalWrite_wrong_mode_noop p s d m :
  at_ (_pin_mode d) p = Some m ->
  m <> mode_code OUTPUT -> m <> mode_code PWM ->
  digitalWrite p s d = Some d.
Proof.
  intros Hm Ho Hp. unfold digitalWrite. rewrite Hm. cbn [mbind option_bind].
  assert ((m =? mode_code OUTPUT) = false) as -> by (zbool; exact Ho).
  assert ((m =? mode_code PWM) = false) as -> by (zbool; exact Hp).
  reflexivity.
Qed.

Lemma digitalWrite_wrong_mode_noop_witness :
  digitalWrite 2 HIGH (set_pin_mode (replicate 8 (mode_code INPUT)) (initialize (fresh 1 8 6)))
  = Some (set_pin_mode (replicate 8 (mode_code INPUT)) (initialize (fresh 1 8 6))).
Proof.
  apply (digitalWrite_wrong_mode_noop 2 HIGH _ (mode_code INPUT));
    [reflexivity | simpl; lia | simpl; lia].
Defined.

(** X7: A write touches one pin and sends the whole port: on an OUTPUT pin
    [digitalWrite] makes exactly one [sendDigitalPort] call, carrying the
    port byte now cached; the pin has the level written, every other pin
    keeps its cached level, and modes, subscriptions and events are
    untouched. *)
Theorem digitalWrite_sends_port_byte p s d v :
  at_ (_pin_mode d) p = Some (mode_code OUTPUT) ->
  at_ (_digital_port d) (pin_port p) = Some v ->
  exists d' v',
    digitalWrite p s d = Some d' /\
    at_ (_digital_port d') (pin_port p) = Some v' /\
    firmata_calls d' = firmata_calls d ++ [f_sendDigitalPort (pin_port p) v'] /\
    pin_bit d' p = Some (bool_decide (s = HIGH)) /\
    (forall q, q <> p -> pin_bit d' q = pin_bit d q) /\
    _pin_mode d' = _pin_mode d /\
    _subscribed_ports d' = _subscribed_ports d /\
    raised d' = raised d.
Proof.
  intros Hm Hv. rewrite (digitalWrite_OUTPUT_result p s d v Hm Hv).
  eexists _, _. split; [reflexivity|].
  cbn [_digital_port _pin_mode _subscribed_ports raised firmata_calls firmata
       set_digital_port].
  split; [eapply at_store_same; eauto|]. split; [reflexivity|].
  pose proof (at_Some _ _ _ Hm) as [Hp _].
  split; [|split; [|repeat split]].
  - unfold pin_bit. cbn [_digital_port firmata set_digital_port].
    rewrite (at_store_same _ _ _ _ Hv). cbn [mbind option_bind].
    destruct s; cbn [state_code Z.eqb negb];
      [rewrite and_not8_own | rewrite or8_own]; reflexivity.
  - intros q Hq. unfold pin_bit. cbn [_digital_port firmata set_digital_port].
    apply (port_bit_other _ p q v); auto.
    intros j Hj Hne. destruct s; cbn [state_code Z.eqb negb];
      [apply and_not8_other | apply or8_other]; auto.
Qed.

Lemma digitalWrite_sends_port_byte_witness :
  exists d' v',
    digitalWrite 13 HIGH (initialize (fresh 16 128 6)) = Some d' /\
    at_ (_digital_port d') (pin_port 13) = Some v' /\
    firmata_calls d'
    = firmata_calls (initialize (fresh 16 128 6)) ++ [f_sendDigitalPort (pin_port 13) v'] /\
    pin_bit d' 13 = Some (bool_decide (HIGH = HIGH)) /\
    (forall q, q <> 13 -> pin_bit d' q = pin_bit (initialize (fresh 16 128 6)) q) /\
    _pin_mode d' = _pin_mode (initialize (fresh 16 128 6)) /\
    _subscribed_ports d' = _subscribed_ports (initialize (fresh 16 128 6)) /\
    raised d' = raised (initialize (fresh 16 128 6)).
Proof.
  apply (digitalWrite_sends_port_byte 13 HIGH _ 0); reflexivity.
Defined.

(** X8: The mode correction of [digitalWrite]: on a PWM pin it first makes the
    pin an OUTPUT pin, then writes; afterwards the cached mode is OUTPUT
    and [digitalRead] returns the state written. *)
Theorem digitalWrite_PWM_switches_to_OUTPUT p s d sub v :
  at_ (_pin_mode d) p = Some (mode_code PWM) ->
  at_ (_subscribed_ports d) (pin_port p) = Some sub ->
  at_ (_digital_port d) (pin_port p) = Some v ->
  exists d',
    digitalWrite p s d = Some d' /\
    getPinMode p d' = Some (mode_code OUTPUT) /\
    digitalRead p d' = Some (s, d').
Proof.
  intros Hm Hsub Hv.
  destruct (pinMode_fields p OUTPUT d _ sub v Hm Hsub Hv)
    as (d1 & Hd1 & Hm1 & _ & Hdig & _).
  assert (Hmode : at_ (_pin_mode d1) p = Some (mode_code OUTPUT))
    by (rewrite Hm1; eapply at_store_same; eauto).
  assert (Hv1 : at_ (_digital_port d1) (pin_port p) = Some (and_not8 v (pin_mask p)))
    by (rewrite Hdig; cbn; eapply at_store_same; eauto).
  rewrite (digitalWrite_PWM_unfold p s d d1 Hm Hd1 Hmode).
  rewrite (digitalWrite_OUTPUT_result p s d1 _ Hmode Hv1).
  eexists. split; [reflexivity|].
  unfold getPinMode. cbn [_pin_mode firmata set_digital_port].
  split; [exact Hmode|].
  erewrite digitalRead_no_correction;
    [| cbn [_pin_mode firmata set_digital_port]; exact Hmode
     | simpl; lia
     | cbn [_digital_port firmata set_digital_port]; eapply at_store_same; eauto].
  destruct s; cbn [state_code Z.eqb negb];
    [rewrite and_not8_own | rewrite or8_own]; reflexivity.
Qed.

Lemma digitalWrite_PWM_switches_to_OUTPUT_witness :
  exists d',
    digitalWrite 3 HIGH
      (set_pin_mode (replicate 8 (mode_code PWM)) (initialize (fresh 1 8 6))) = Some d' /\
    getPinMode 3 d' = Some (mode_code OUTPUT) /\
    digitalRead 3 d' = Some (HIGH, d').
Proof.
  apply (digitalWrite_PWM_switches_to_OUTPUT 3 HIGH _ 0 0); reflexivity.
Defined.

(** X9: [digitalRead] is a pure read of the cache in every mode but ANALOG: it
    returns the cached bit of the pin and leaves the state as it was,
    also on OUTPUT, PWM or SERVO pins. *)
Theorem digitalRead_reads_cache p d m v :
  at_ (_pin_mode d) p = Some m -> m <> mode_code ANALOG ->
  at_ (_digital_port d) (pin_port p) = Some v ->
  digitalRead p d = Some (state_of_bool (Z.testbit v (p mod 8)), d).
Proof.
  intros Hm Hne Hv. unfold digitalRead. rewrite Hm. cbn [mbind option_bind].
  assert ((m =? mode_code ANALOG) = false) as -> by (zbool; exact Hne).
  destruct (negb (m =? mode_code INPUT)); cbn [mbind option_bind];
    rewrite Hv; cbn [mbind option_bind]; rewrite land_pin_mask; reflexivity.
Qed.

Lemma digitalRead_reads_cache_witness :
  digitalRead 5 (set_digital_port [0x20] (initialize (fresh 1 8 6)))
  = Some (state_of_bool (Z.testbit 0x20 (5 mod 8)),
          set_digital_port [0x20] (initialize (fresh 1 8 6))).
Proof.
  apply (digitalRead_reads_cache 5 _ (mode_code OUTPUT) 0x20);
    [reflexivity | simpl; lia | reflexivity].
Defined.

(** X10: The mode correction of [digitalRead]: on an ANALOG pin it makes the pin
    an INPUT pin and subscribes it, leaves the cached port bytes alone,
    and returns the bit that was cached. *)
Theorem digitalRead_ANALOG_switches_to_INPUT p d sub v :
  at_ (_pin_mode d) p = Some (mode_code ANALOG) ->
  at_ (_subscribed_ports d) (pin_port p) = Some sub ->
  at_ (_digital_port d) (pin_port p) = Some v ->
  exists d',
    digitalRead p d = Some (state_of_bool (Z.testbit v (p mod 8)), d') /\
    getPinMode p d' = Some (mode_code INPUT) /\
    subscribed_bit d' p = Some true /\
    _digital_port d' = _digital_port d.
Proof.
  intros Hm Hsub Hv.
  destruct (pinMode_fields p INPUT d _ sub v Hm Hsub Hv)
    as (d1 & Hd1 & Hm1 & Hs1 & Hdig & _).
  rewrite decide_True in Hs1 by reflexivity.
  rewrite bool_decide_eq_false_2 in Hdig by discriminate. cbn [andb] in Hdig.
  exists d1. unfold digitalRead. rewrite Hm. cbn [mbind option_bind].
  change (mode_code ANALOG =? mode_code INPUT) with false.
  change (mode_code ANALOG =? mode_code ANALOG) with true.
  cbn [negb]. rewrite Hd1. cbn [mbind option_bind].
  rewrite Hdig, Hv. cbn [mbind option_bind]. rewrite land_pin_mask.
  split; [reflexivity|]. split; [|split; [|reflexivity]].
  - unfold getPinMode. rewrite Hm1. eapply at_store_same; eauto.
  - unfold subscribed_bit. rewrite Hs1, (at_store_same _ _ _ _ Hsub).
    cbn [mbind option_bind]. rewrite or8_own. reflexivity.
Qed.

Lemma digitalRead_ANALOG_switches_to_INPUT_witness :
  exists d',
    digitalRead 3 (set_pin_mode (replicate 8 (mode_code ANALOG)) (initialize (fresh 1 8 6)))
    = Some (state_of_bool (Z.testbit 0 (3 mod 8)), d') /\
    getPinMode 3 d' = Some (mode_code INPUT) /\
    subscribed_bit d' 3 = Some true /\
    _digital_port d'
    = _digital_port (set_pin_mode (replicate 8 (mode_code ANALOG)) (initialize (fresh 1 8 6))).
Proof.
  apply (digitalRead_ANALOG_switches_to_INPUT 3 _ 0 0); reflexivity.
Defined.

(** ** [analogWrite] and [analogRead] *)

(** X11: [analogWrite] acts on PWM and OUTPUT pins only: in any other cached
    mode it changes nothing and sends nothing. *)
Theorem analogWrite_wrong_mode_noop p value d m :
  at_ (_pin_mode d) p = Some m ->
  m <> mode_code PWM -> m <> mode_code OUTPUT ->
  analogWrite p value d = Some d.
Proof.
  intros Hm Hp Ho. unfold analogWrite. rewrite Hm. cbn [mbind option_bind].
  assert ((m =? mode_code PWM) = false) as -> by (zbool; exact Hp).
  assert ((m =? mode_code OUTPUT) = false) as -> by (zbool; exact Ho).
  reflexivity.
Qed.

Lemma analogWrite_wrong_mode_noop_witness :
  analogWrite 2 128 (set_pin_mode (replicate 8 (mode_code INPUT)) (initialize (fresh 1 8 6)))
  = Some (set_pin_mode (replicate 8 (mode_code INPUT)) (initialize (fresh 1 8 6))).
Proof.
  apply (analogWrite_wrong_mode_noop 2 128 _ (mode_code INPUT));
    [reflexivity | simpl; lia | simpl; lia].
Defined.

(** X12: On a PWM or OUTPUT pin [analogWrite] ends with exactly one
    [sendAnalog] call carrying the pin and the value as given; an OUTPUT
    pin is first switched to PWM with one SET_PIN_MODE frame.  The cached
    mode is PWM afterwards; port bytes, subscription masks and analog
    values are untouched, so the level cached for the pin is not reset. *)
Theorem analogWrite_sends_value p value d m sub v :
  at_ (_pin_mode d) p = Some m ->
  m = mode_code PWM \/ m = mode_code OUTPUT ->
  at_ (_subscribed_ports d) (pin_port p) = Some sub ->
  at_ (_digital_port d) (pin_port p) = Some v ->
  exists d',
    analogWrite p value d = Some d' /\
    getPinMode p d' = Some (mode_code PWM) /\
    firmata_calls d'
    = firmata_calls d
      ++ (if m =? mode_code OUTPUT
          then [f_lock; f_write (Cmd SET_PIN_MODE); f_write (Raw p);
                f_write (Raw (mode_code PWM)); f_flush; f_unlock]
          else [])
      ++ [f_sendAnalog p value] /\
    _digital_port d' = _digital_port d /\
    _subscribed_ports d' = _subscribed_ports d /\
    _analog_pins d' = _analog_pins d /\
    raised d' = raised d.
Proof.
  intros Hm Hcase Hsub Hv. unfold analogWrite. rewrite Hm. cbn [mbind option_bind].
  destruct Hcase as [-> | ->].
  - change (mode_code PWM =? mode_code PWM) with true.
    change (mode_code PWM =? mode_code OUTPUT) with false. cbn [negb].
    eexists. split; [reflexivity|]. unfold getPinMode.
    cbn [_pin_mode _digital_port _subscribed_ports _analog_pins raised
         firmata_calls firmata app].
    repeat split; assumption.
  - change (mode_code OUTPUT =? mode_code PWM) with false.
    change (mode_code OUTPUT =? mode_code OUTPUT) with true. cbn [negb].
    destruct (pinMode_fields p PWM d _ sub v Hm Hsub Hv)
      as (d1 & -> & Hm1 & Hs1 & Hdig & Han & _ & Hr & Hc).
    cbn [mbind option_bind].
    assert (Hmode : at_ (_pin_mode d1) p = Some (mode_code PWM))
      by (rewrite Hm1; eapply at_store_same; eauto).
    rewrite (store_Some _ _ _ _ Hmode). cbn [mbind option_bind].
    eexists. split; [reflexivity|]. unfold getPinMode.
    cbn [_pin_mode _digital_port _subscribed_ports _analog_pins raised
         firmata_calls firmata set_pin_mode].
    rewrite decide_False in Hs1 by discriminate.
    rewrite decide_False in Hc by discriminate.
    change (mode_code OUTPUT =? mode_code INPUT) with false in Hs1, Hc.
    rewrite bool_decide_eq_false_2 in Hdig by discriminate. cbn [andb] in Hdig.
    split; [eapply at_store_same; eauto|].
    split; [rewrite Hc, <- !app_assoc; reflexivity|].
    repeat split; assumption.
Qed.

Lemma analogWrite_sends_value_witness :
  exists d',
    analogWrite 3 200 (initialize (fresh 1 8 6)) = Some d' /\
    getPinMode 3 d' = Some (mode_code PWM) /\
    firmata_calls d'
    = firmata_calls (initialize (fresh 1 8 6))
      ++ (if mode_code OUTPUT =? mode_code OUTPUT
          then [f_lock; f_write (Cmd SET_PIN_MODE); f_write (Raw 3);
                f_write (Raw (mode_code PWM)); f_flush; f_unlock]
          else [])
      ++ [f_sendAnalog 3 200] /\
    _digital_port d' = _digital_port (initialize (fresh 1 8 6)) /\
    _subscribed_ports d' = _subscribed_ports (initialize (fresh 1 8 6)) /\
    _analog_pins d' = _analog_pins (initialize (fresh 1 8 6)) /\
    raised d' = raised (initialize (fresh 1 8 6)).
Proof.
  apply (analogWrite_sends_value 3 200 _ (mode_code OUTPUT) 0 0);
    [reflexivity | right; reflexivity | reflexivity | reflexivity].
Defined.

(** In ANALOG mode [analogRead] is a guarded read of the analog cache. *)
Lemma analogRead_ANALOG_result pin d :
  at_ (_pin_mode d) (u8 (pin + _analog_offset d)) = Some (mode_code ANALOG) ->
  analogRead pin d
  = if pin <? _num_analog_pins d
    then x ← at_ (_analog_pins d) pin; Some (x, d)
    else Some (u16 (-1), d).
Proof.
  intros Hm. unfold analogRead. rewrite Hm. reflexivity.
Qed.

(** X13: Report then read: after the analog report [(pin, value)], [analogRead]
    of that analog pin returns [value], provided the pin is one of the
    [num_analog_pins] analog pins and the cached mode of pin
    [pin + analog_offset] is ANALOG; the read changes nothing. *)
Theorem onAnalogReport_then_analogRead pin value d old :
  at_ (_analog_pins d) pin = Some old ->
  pin < _num_analog_pins d ->
  at_ (_pin_mode d) (u8 (pin + _analog_offset d)) = Some (mode_code ANALOG) ->
  exists d',
    onAnalogReport pin value d = Some d' /\
    analogRead pin d' = Some (value, d').
Proof.
  intros Ho Hlt Hm. unfold onAnalogReport.
  rewrite (store_Some _ _ _ _ Ho). cbn [mbind option_bind].
  eexists. split; [reflexivity|].
  rewrite analogRead_ANALOG_result by exact Hm.
  cbn [_num_analog_pins _analog_pins raise set_analog_pins].
  assert ((pin <? _num_analog_pins d) = true) as -> by (apply Z.ltb_lt; exact Hlt).
  rewrite (at_store_same _ _ _ _ Ho). reflexivity.
Qed.

Lemma onAnalogReport_then_analogRead_witness :
  exists d',
    onAnalogReport 1 777
      (set_num_analog_pins 6 (set_pin_mode (replicate 8 (mode_code ANALOG))
                                (initialize (fresh 1 8 6)))) = Some d' /\
    analogRead 1 d' = Some (777, d').
Proof.
  apply (onAnalogReport_then_analogRead 1 777 _ 0); [reflexivity | simpl; lia | reflexivity].
Defined.

(** X14: The bounds check of [analogRead]: an analog index at or beyond
    [num_analog_pins] yields the sentinel [0xFFFF] even when the mode check
    passes, without reading the analog cache and without any change. *)
Theorem analogRead_beyond_num_analog_pins pin d :
  at_ (_pin_mode d) (u8 (pin + _analog_offset d)) = Some (mode_code ANALOG) ->
  _num_analog_pins d <= pin ->
  analogRead pin d = Some (0xFFFF, d) /\
  forall values,
    analogRead pin (set_analog_pins values d) = Some (0xFFFF, set_analog_pins values d).
Proof.
  intros Hm Hge. split; [|intros values];
    rewrite analogRead_ANALOG_result by exact Hm;
    cbn [_num_analog_pins set_analog_pins];
    (assert ((pin <? _num_analog_pins d) = false) as -> by (apply Z.ltb_ge; exact Hge));
    reflexivity.
Qed.

Lemma analogRead_beyond_num_analog_pins_witness :
  analogRead 2 (set_num_analog_pins 2 (set_pin_mode (replicate 8 (mode_code ANALOG))
                                         (initialize (fresh 1 8 6))))
  = Some (0xFFFF, set_num_analog_pins 2 (set_pin_mode (replicate 8 (mode_code ANALOG))
                                           (initialize (fresh 1 8 6)))) /\
  forall values,
    analogRead 2 (set_analog_pins values
                    (set_num_analog_pins 2 (set_pin_mode (replicate 8 (mode_code ANALOG))
                                              (initialize (fresh 1 8 6)))))
    = Some (0xFFFF, set_analog_pins values
                      (set_num_analog_pins 2 (set_pin_mode (replicate 8 (mode_code ANALOG))
                                                (initialize (fresh 1 8 6))))).
Proof.
  apply (analogRead_beyond_num_analog_pins 2); [reflexivity | simpl; lia].
Defined.

(** X15: The mode correction of [analogRead]: when the pin it consults is an
    INPUT pin, it makes that pin an ANALOG pin, which unsubscribes it, and
    then returns the cached analog value. *)
Theorem analogRead_INPUT_switches_to_ANALOG pin d sub v x :
  at_ (_pin_mode d) (u8 (pin + _analog_offset d)) = Some (mode_code INPUT) ->
  at_ (_subscribed_ports d) (pin_port (u8 (pin + _analog_offset d))) = Some sub ->
  at_ (_digital_port d) (pin_port (u8 (pin + _analog_offset d))) = Some v ->
  pin < _num_analog_pins d ->
  at_ (_analog_pins d) pin = Some x ->
  exists d',
    analogRead pin d = Some (x, d') /\
    getPinMode (u8 (pin + _analog_offset d)) d' = Some (mode_code ANALOG) /\
    subscribed_bit d' (u8 (pin + _analog_offset d)) = Some false /\
    _analog_pins d' = _analog_pins d /\
    _digital_port d' = _digital_port d.
Proof.
  intros Hm Hsub Hv Hlt Hx.
  destruct (pinMode_fields _ ANALOG d _ sub v Hm Hsub Hv)
    as (d1 & Hd1 & Hm1 & Hs1 & Hdig & Han & Hcnt & _).
  rewrite decide_False in Hs1 by discriminate.
  change (mode_code INPUT =? mode_code INPUT) with true in Hs1.
  rewrite bool_decide_eq_false_2 in Hdig by discriminate. cbn [andb] in Hdig.
  unfold counters in Hcnt. injection Hcnt as _ Hnum _.
  exists d1. unfold analogRead. rewrite Hm. cbn [mbind option_bind].
  change (mode_code INPUT =? mode_code ANALOG) with false.
  change (mode_code INPUT =? mode_code INPUT) with true. cbn [negb].
  rewrite Hd1. cbn [mbind option_bind]. rewrite Hnum, Han.
  assert ((pin <? _num_analog_pins d) = true) as -> by (apply Z.ltb_lt; exact Hlt).
  rewrite Hx. cbn [mbind option_bind]. cbv iota in Hs1.
  split; [reflexivity|]. split; [|split; [|split; [reflexivity | exact Hdig]]].
  - unfold getPinMode. rewrite Hm1. eapply at_store_same; eauto.
  - unfold subscribed_bit. rewrite Hs1, (at_store_same _ _ _ _ Hsub).
    cbn [mbind option_bind]. rewrite and_not8_own. reflexivity.
Qed.

Lemma analogRead_INPUT_switches_to_ANALOG_witness :
  exists d',
    analogRead 1
      (set_num_analog_pins 6
         (set_subscribed_ports [0xFF]
            (set_pin_mode (replicate 8 (mode_code INPUT)) (initialize (fresh 1 8 6)))))
    = Some (0, d') /\
    getPinMode (u8 (1 + 0)) d' = Some (mode_code ANALOG) /\
    subscribed_bit d' (u8 (1 + 0)) = Some false /\
    _analog_pins d' = replicate 6 0 /\
    _digital_port d' = [0].
Proof.
  apply (analogRead_INPUT_switches_to_ANALOG 1
           (set_num_analog_pins 6
              (set_subscribed_ports [0xFF]
                 (set_pin_mode (replicate 8 (mode_code INPUT)) (initialize (fresh 1 8 6)))))
           0xFF 0 0);
    [reflexivity | reflexivity | reflexivity | simpl; lia | reflexivity].
Defined.

(** ** The notifications of [onDigitalReport] *)

Lemma land_one x : Z.land x 1 = if Z.testbit x 0 then 1 else 0.
Proof. apply (land_pow2 x 0). lia. Qed.

Lemma bit_events_nil n port pv X i :
  (forall j, i <= j -> Z.testbit X j = false) -> bit_events n port pv X i = [].
Proof.
  revert i. induction n as [|n IH]; intros i H; [reflexivity|].
  cbn [bit_events]. rewrite (H i) by lia. rewrite IH; [reflexivity|].
  intros j Hj. apply H. lia.
Qed.

Lemma bit_events_ext n port pv X Y i :
  (forall j, i <= j < i + Z.of_nat n -> Z.testbit X j = Z.testbit Y j) ->
  bit_events n port pv X i = bit_events n port pv Y i.
Proof.
  revert i. induction n as [|n IH]; intros i H; [reflexivity|].
  cbn [bit_events]. rewrite (H i) by lia. f_equal. apply IH.
  intros j Hj. apply H. lia.
Qed.

(** The loop raises one event per set bit of the changed-bits byte, lowest
    bit first. *)
Lemma pin_events_raised fuel port pv X i d :
  0 <= i -> i + Z.of_nat fuel <= 8 -> 0 <= X < 2 ^ (i + Z.of_nat fuel) ->
  exists d',
    pin_events fuel port pv (Z.shiftr X i) i d = Some d' /\
    cache d' = cache d /\
    raised d' = raised d ++ bit_events fuel port pv X i.
Proof.
  revert i d. induction fuel as [|fuel IH]; intros i d Hi Hfuel HX.
  - rewrite Z.add_0_r in HX.
    assert (Z.shiftr X i = 0) as ->
      by (rewrite Z.shiftr_div_pow2 by lia; apply Z.div_small; lia).
    exists d. cbn. rewrite app_nil_r. repeat split.
  - cbn [pin_events]. destruct (Z.shiftr X i >? 0) eqn:E.
    + assert (Hu : u8 (i + 1) = i + 1) by (unfold u8; apply Z.mod_small; lia).
      rewrite Hu, Z.shiftr_shiftr by lia.
      match goal with |- context [pin_events fuel _ _ _ _ ?d1] =>
        destruct (IH (i + 1) d1) as (d' & Hd & Hc & Hr); [lia | lia | |]
      end.
      { replace (i + 1 + Z.of_nat fuel) with (i + Z.of_nat (S fuel)) by lia.
        exact HX. }
      exists d'. split; [exact Hd|]. rewrite Hc, Hr.
      rewrite !land_one, !Z.shiftr_spec by lia. rewrite !Z.add_0_l.
      cbn [bit_events].
      destruct (Z.testbit X i); cbn [negb Z.eqb];
        [destruct (Z.testbit pv i)|]; cbn [raised raise cache];
        rewrite <- ?app_assoc; split; reflexivity.
    + zbool.
      assert (H0 : Z.shiftr X i = 0).
      { pose proof (Z.shiftr_nonneg X i) as [_ Hn]. specialize (Hn ltac:(lia)). lia. }
      exists d. split; [reflexivity|]. split; [reflexivity|].
      rewrite bit_events_nil; [by rewrite app_nil_r|].
      intros j Hj. replace j with ((j - i) + i) by lia.
      rewrite <- Z.shiftr_spec by lia. rewrite H0. apply Z.bits_0.
Qed.

Lemma device_eq d1 d2 : cache d1 = cache d2 -> raised d1 = raised d2 -> d1 = d2.
Proof.
  destruct d1, d2. unfold cache. cbn. intros [= -> -> -> -> -> -> -> ->] ->.
  reflexivity.
Qed.

Lemma u8_eq_bits x y :
  (forall i, 0 <= i < 8 -> Z.testbit x i = Z.testbit y i) -> u8 x = u8 y.
Proof.
  intros H. apply Z.bits_inj'. intros n Hn. unfold u8. change 256 with (2 ^ 8).
  destruct (Z_lt_le_dec n 8).
  - rewrite !Z.mod_pow2_bits_low by lia. apply H. lia.
  - rewrite !Z.mod_pow2_bits_high by lia. reflexivity.
Qed.

(** The whole effect of a digital report. *)
Lemma onDigitalReport_result d port raw sub old :
  at_ (_subscribed_ports d) port = Some sub ->
  at_ (_digital_port d) port = Some old ->
  exists d',
    onDigitalReport port raw d = Some d' /\
    cache d'
    = cache (set_digital_port
               (<[Z.to_nat port := or8 (u8 raw) (u8 (Z.land (Z.lnot sub) old))]>
                  (_digital_port d)) d) /\
    raised d'
    = raised d
      ++ bit_events 8 port (or8 (u8 raw) (u8 (Z.land (Z.lnot sub) old)))
           (Z.lxor (or8 (u8 raw) (u8 (Z.land (Z.lnot sub) old))) old) 0.
Proof.
  intros Hs Ho. unfold onDigitalReport. rewrite Hs, Ho. cbn [mbind option_bind].
  rewrite (store_Some _ _ _ _ Ho). cbn [mbind option_bind].
  match goal with |- context [pin_events 8 ?a ?b ?c 0 ?f] =>
    destruct (pin_events_raised 8 a b c 0 f) as (d' & Hd & Hc & Hr);
      [lia | simpl; lia | pose proof (u8_range (Z.lxor b old)); simpl; lia |]
  end.
  rewrite Z.shiftr_0_r in Hd. exists d'. split; [exact Hd|].
  split; [exact Hc|]. rewrite Hr. cbn [raised set_digital_port]. f_equal.
  apply bit_events_ext. intros j Hj. apply u8_testbit. simpl in Hj. lia.
Qed.

(** X16: A digital report raises one [DigitalPinUpdatedEvent] for each pin of
    the port whose cached bit it changes, in increasing pin order, with
    the absolute pin number [port * 8 + bit] and the new level; it raises
    none for the other pins and makes no call on the protocol object. *)
Theorem onDigitalReport_notifies_changed_pins d port raw sub old :
  at_ (_subscribed_ports d) port = Some sub ->
  at_ (_digital_port d) port = Some old ->
  exists d' new,
    onDigitalReport port raw d = Some d' /\
    at_ (_digital_port d') port = Some new /\
    raised d' = raised d ++ bit_events 8 port new (Z.lxor new old) 0 /\
    firmata_calls d' = firmata_calls d.
Proof.
  intros Hs Ho.
  destruct (onDigitalReport_result d port raw sub old Hs Ho) as (d' & Hd & Hc & Hr).
  exists d', (or8 (u8 raw) (u8 (Z.land (Z.lnot sub) old))).
  split; [exact Hd|]. unfold cache in Hc. injection Hc as _ _ _ _ Hdig _ _ Hf.
  cbn in Hdig, Hf. rewrite Hdig.
  split; [eapply at_store_same; eauto|]. split; [exact Hr | exact Hf].
Qed.

Lemma onDigitalReport_notifies_changed_pins_witness :
  exists d' new,
    onDigitalReport 1 0x05
      (set_subscribed_ports (replicate 16 0xFF) (initialize (fresh 16 128 6))) = Some d' /\
    at_ (_digital_port d') 1 = Some new /\
    raised d' = [] ++ bit_events 8 1 new (Z.lxor new 0) 0 /\
    firmata_calls d' = [].
Proof.
  apply (onDigitalReport_notifies_changed_pins
           (set_subscribed_ports (replicate 16 0xFF) (initialize (fresh 16 128 6)))
           1 0x05 0xFF 0); reflexivity.
Defined.

(** X17: Reports are idempotent: the same report delivered a second time leaves
    the whole state as the first left it and raises no event. *)
Theorem onDigitalReport_repeated_is_silent d port raw sub old :
  at_ (_subscribed_ports d) port = Some sub ->
  at_ (_digital_port d) port = Some old ->
  exists d',
    onDigitalReport port raw d = Some d' /\
    onDigitalReport port raw d' = Some d'.
Proof.
  intros Hs Ho.
  destruct (onDigitalReport_result d port raw sub old Hs Ho) as (d' & Hd & Hc & Hr).
  exists d'. split; [exact Hd|].
  set (new := or8 (u8 raw) (u8 (Z.land (Z.lnot sub) old))) in *.
  pose proof Hc as Hc'. unfold cache in Hc'.
  injection Hc' as _ _ _ Hsub Hdig _ _ _. cbn in Hsub, Hdig.
  assert (Hs' : at_ (_subscribed_ports d') port = Some sub) by (rewrite Hsub; exact Hs).
  assert (Ho' : at_ (_digital_port d') port = Some new)
    by (rewrite Hdig; eapply at_store_same; eauto).
  destruct (onDigitalReport_result d' port raw sub new Hs' Ho') as (d2 & Hd2 & Hc2 & Hr2).
  assert (Hfix : or8 (u8 raw) (u8 (Z.land (Z.lnot sub) new)) = new).
  { unfold new at 2. unfold or8. apply u8_eq_bits. intros i Hi.
    rewrite !Z.lor_spec, !u8_testbit, !Z.land_spec, !Z.lnot_spec by lia.
    unfold new. rewrite or8_testbit, !u8_testbit, Z.land_spec, Z.lnot_spec by lia.
    destruct (Z.testbit raw i), (Z.testbit sub i), (Z.testbit old i); reflexivity. }
  rewrite Hfix in Hc2, Hr2. rewrite Hd2. f_equal. apply device_eq.
  - rewrite Hc2. unfold cache. cbn [_analog_offset _num_analog_pins _total_pins
      _subscribed_ports _digital_port _analog_pins _pin_mode firmata_calls
      set_digital_port].
    rewrite (list_insert_id (_digital_port d') (Z.to_nat port) new); [reflexivity|].
    apply at_Some in Ho' as [_ Ho']. exact Ho'.
  - rewrite Hr2, Z.lxor_nilpotent, bit_events_nil; [apply app_nil_r|].
    intros j _. apply Z.bits_0.
Qed.

Lemma onDigitalReport_repeated_is_silent_witness :
  exists d',
    onDigitalReport 1 0x05
      (set_subscribed_ports (replicate 16 0xFF) (initialize (fresh 16 128 6))) = Some d' /\
    onDigitalReport 1 0x05 d' = Some d'.
Proof.
  apply (onDigitalReport_repeated_is_silent
           (set_subscribed_ports (replicate 16 0xFF) (initialize (fresh 16 128 6)))
           1 0x05 0xFF 0); reflexivity.
Defined.

Lemma report_updates_subscribed_bit_witness :
  exists d' new,
    onDigitalReport 1 0x05
      (set_subscribed_ports (replicate 16 0xFF)
         (set_digital_port (replicate 16 0xFF) (initialize (fresh 16 128 6)))) = Some d' /\
    at_ (_digital_port d') 1 = Some new /\
    Z.testbit new 1 = Z.testbit 0x05 1.
Proof.
  apply (report_updates_subscribed_bit
           (set_subscribed_ports (replicate 16 0xFF)
              (set_digital_port (replicate 16 0xFF) (initialize (fresh 16 128 6))))
           1 0x05 0xFF 0xFF 1); [lia | reflexivity | reflexivity | reflexivity].
Defined.

(** ** The capability response as a whole *)

Lemma note_num d b :
  _num_analog_pins (note d b)
  = _num_analog_pins d + (if is_analog b then 1 else 0).
Proof.
  unfold note. destruct (is_analog b), (_analog_offset d =? 0); cbn; lia.
Qed.

Lemma fold_note_num c d :
  _num_analog_pins (fold_left note c d)
  = _num_analog_pins d + Z.of_nat (length (filter (fun b => is_analog b = true) c)).
Proof.
  revert d. induction c as [|b c IH]; intros d; [cbn; lia|].
  cbn [fold_left]. rewrite IH, note_num, filter_cons.
  destruct (decide (is_analog b = true)) as [->|Hn].
  - cbn [length]. lia.
  - destruct (is_analog b); [congruence | lia].
Qed.

Lemma tally_num r d :
  _num_analog_pins (tally r d) = _num_analog_pins d + Z.of_nat (count_analog r).
Proof.
  revert d. induction r as [|[c t] r IH]; intros d; [cbn; lia|].
  cbn [tally count_analog]. rewrite IH. cbn [_num_analog_pins set_total_pins].
  rewrite fold_note_num. lia.
Qed.

Lemma note_arrays d b : arrays (note d b) = arrays d.
Proof. unfold note. repeat case_match; reflexivity. Qed.

Lemma fold_note_arrays c d : arrays (fold_left note c d) = arrays d.
Proof.
  revert d. induction c as [|b c IH]; intros d; [reflexivity|].
  cbn [fold_left]. rewrite IH. apply note_arrays.
Qed.

Lemma tally_arrays r d : arrays (tally r d) = arrays d.
Proof.
  revert d. induction r as [|[c t] r IH]; intros d; [reflexivity|].
  cbn [tally]. rewrite IH. unfold arrays at 1. cbn [_subscribed_ports _digital_port
    _analog_pins _pin_mode firmata_calls raised set_total_pins].
  apply fold_note_arrays.
Qed.

Lemma note_counters d1 d2 b : counters d1 = counters d2 -> counters (note d1 b) = counters (note d2 b).
Proof.
  unfold counters. intros [= Ht Hn Ho]. unfold note. rewrite Ho, Ht.
  repeat case_match; cbn; congruence.
Qed.

Lemma tally_counters r d1 d2 :
  counters d1 = counters d2 -> counters (tally r d1) = counters (tally r d2).
Proof.
  revert d1 d2. induction r as [|[c t] r IH]; intros d1 d2 H; [exact H|].
  cbn [tally]. apply IH.
  assert (Hf : counters (fold_left note c d1) = counters (fold_left note c d2)).
  { revert d1 d2 H. induction c as [|b c IHc]; intros d1 d2 H; [exact H|].
    cbn [fold_left]. apply IHc, note_counters, H. }
  unfold counters in *. injection Hf as Ht Hn Ho. cbn. congruence.
Qed.

(** X19: A capability response starts the cache afresh, whatever it held: every
    pin mode is OUTPUT, every port byte, subscription mask and analog
    value is 0, the arrays keep their sizes, one [DeviceReadyEvent] is
    raised and nothing is sent. *)
Theorem capability_response_resets_cache data d :
  exists d',
    onPinCapabilityResponseReceived data d = Some d' /\
    _pin_mode d' = replicate (length (_pin_mode d)) (mode_code OUTPUT) /\
    _digital_port d' = replicate (length (_digital_port d)) 0 /\
    _subscribed_ports d' = replicate (length (_subscribed_ports d)) 0 /\
    _analog_pins d' = replicate (length (_analog_pins d)) 0 /\
    raised d' = raised d ++ [DeviceReadyEvent] /\
    firmata_calls d' = firmata_calls d.
Proof.
  unfold onPinCapabilityResponseReceived.
  rewrite scan_capabilities_descriptors. eexists. split; [reflexivity|].
  match goal with |- context [tally ?r ?d0] =>
    pose proof (tally_arrays r d0) as H
  end.
  unfold arrays in H. injection H as Hs Hd Ha Hm Hf Hr.
  cbn [_pin_mode _digital_port _subscribed_ports _analog_pins raised firmata_calls
       raise initialize].
  rewrite Hs, Hd, Ha, Hm, Hf, Hr. repeat split.
Qed.

(** X20: The counters a capability response leaves depend on its payload alone:
    nothing of an earlier negotiation survives in them. *)
Theorem capability_counters_from_payload data d1 d2 :
  exists d1' d2',
    onPinCapabilityResponseReceived data d1 = Some d1' /\
    onPinCapabilityResponseReceived data d2 = Some d2' /\
    counters d1' = counters d2'.
Proof.
  destruct (capability_counters data d1) as (d1' & H1 & C1).
  destruct (capability_counters data d2) as (d2' & H2 & C2).
  exists d1', d2'. split; [exact H1|]. split; [exact H2|].
  rewrite C1, C2. apply tally_counters. reflexivity.
Qed.

(** X21: [num_analog_pins] counts ANALOG capability bytes, not analog pins: it
    is the number of ANALOG bytes the scan observes over all descriptors,
    so a pin that lists ANALOG twice counts twice. *)
Theorem num_analog_pins_counts_analog_bytes data d :
  exists d',
    onPinCapabilityResponseReceived data d = Some d' /\
    _num_analog_pins d' = Z.of_nat (count_analog (descriptors data 0 false)).
Proof.
  destruct (capability_counters data d) as (d' & Hd & Hc).
  exists d'. split; [exact Hd|].
  unfold counters in Hc. injection Hc as _ -> _. rewrite tally_num. cbn. lia.
Qed.

(** ** More on pin names *)

Lemma parse_short s :
  (String.length s < 2)%nat -> parsePinFromAnalogString s = u8 (-1).
Proof.
  intros Hs. unfold parsePinFromAnalogString.
  apply Nat.ltb_lt in Hs. rewrite Hs. reflexivity.
Qed.

Lemma parse_prefix c rest :
  c <> "A"%char -> c <> "a"%char -> parsePinFromAnalogString (String c rest) = u8 (-1).
Proof.
  intros HA Ha. unfold parsePinFromAnalogString.
  destruct (_ <? _)%nat; [reflexivity|].
  destruct rest as [|d1 r]; [reflexivity|].
  apply Ascii.eqb_neq in HA, Ha. rewrite HA, Ha. reflexivity.
Qed.

(** After a good prefix and a second character other than ['0'], the
    name fails exactly when [wcstol] yields 0. *)
Lemma parse_second c x rest :
  c = "A"%char \/ c = "a"%char -> x <> "0"%char ->
  parsePinFromAnalogString (String c (String x rest))
  = if wcstol (String x rest) =? 0 then u8 (-1) else u8 (wcstol (String x rest)).
Proof.
  intros Hc Hx. unfold parsePinFromAnalogString.
  cbn [String.length Nat.ltb Nat.leb].
  assert (negb ((c =? "a")%char || (c =? "A")%char) = false) as ->
    by (destruct Hc as [-> | ->]; reflexivity).
  apply Ascii.eqb_neq in Hx. rewrite Hx. cbn [negb].
  rewrite andb_true_r. reflexivity.
Qed.

Lemma well_formed_inv c ds :
  well_formed_name (String c ds) = true ->
  (c = "A"%char \/ c = "a"%char) /\
  exists d1 r, ds = String d1 r /\ is_digit d1 = true.
Proof.
  intros H. cbn [well_formed_name] in H.
  apply andb_true_iff in H as [H Hd]. apply andb_true_iff in H as [Hc Hn].
  split.
  - apply orb_true_iff in Hc as [Hc | Hc]; apply Ascii.eqb_eq in Hc; auto.
  - destruct ds as [|d1 r]; [discriminate Hn|].
    exists d1, r. split; [reflexivity|].
    cbn [all_digits] in Hd. apply andb_true_iff in Hd as [Hd _]. exact Hd.
Qed.

(** X23: The prefix is case-insensitive: ['a'] and ['A'] followed by the same
    characters parse alike, whatever follows. *)
Theorem parse_case_insensitive s :
  parsePinFromAnalogString (String "a" s) = parsePinFromAnalogString (String "A" s).
Proof. destruct s as [|d1 r]; reflexivity. Qed.

(** X24: Pin numbers wrap: a well-formed name of value [n] parses to [n mod 256]
    as long as [n] fits a [long] (so a value of 256 names pin 0, and a
    value of 255 gives the parse-failure value), and to the parse-failure
    value beyond [LONG_MAX]. *)
Theorem parse_value_wraps c ds :
  well_formed_name (String c ds) = true ->
  parsePinFromAnalogString (String c ds)
  = if decimal ds >? LONG_MAX then u8 (-1) else decimal ds mod 256.
Proof.
  intros H. apply well_formed_inv in H as (Hc & d1 & r & -> & Hd).
  rewrite parse_digits by assumption. unfold decimal.
  pose proof (digits_value_ge (String d1 r) 0 ltac:(lia)) as Hge.
  unfold clamp_long. destruct (_ >? LONG_MAX); [reflexivity|].
  unfold LONG_MIN. destruct (_ <? _) eqn:E; [zbool; lia | reflexivity].
Qed.

Lemma parse_value_wraps_witness :
  parsePinFromAnalogString "A256"
  = if decimal "256" >? LONG_MAX then u8 (-1) else decimal "256" mod 256.
Proof. apply (parse_value_wraps "A"%char "256"%string). reflexivity. Defined.

(** X25: [wcstol] lets a sign or white space through: with a ['+'] or a space
    between the prefix and digits of value [n > 0] the name parses to
    [n mod 256], and with a ['-'] to [(- n) mod 256]; when the digits have
    value 0 all three forms fail, their second character not being ['0']. *)
Theorem parse_accepts_sign_and_space c ds :
  well_formed_name (String c ds) = true ->
  decimal ds <= LONG_MAX ->
  (0 < decimal ds ->
   parsePinFromAnalogString (String c (String "+" ds)) = decimal ds mod 256 /\
   parsePinFromAnalogString (String c (String " " ds)) = decimal ds mod 256 /\
   parsePinFromAnalogString (String c (String "-" ds)) = (- decimal ds) mod 256) /\
  (decimal ds = 0 ->
   parsePinFromAnalogString (String c (String "+" ds)) = u8 (-1) /\
   parsePinFromAnalogString (String c (String " " ds)) = u8 (-1) /\
   parsePinFromAnalogString (String c (String "-" ds)) = u8 (-1)).
Proof.
  intros H Hmax. apply well_formed_inv in H as (Hc & d1 & r & -> & Hd).
  rewrite !parse_second by (auto; discriminate).
  change (wcstol (String "+" (String d1 r)))
    with (clamp_long (digits_value (String d1 r) 0)).
  change (wcstol (String " " (String d1 r))) with (wcstol (String d1 r)).
  change (wcstol (String "-" (String d1 r)))
    with (clamp_long (- digits_value (String d1 r) 0)).
  rewrite (wcstol_digit_first _ _ Hd). unfold decimal in *.
  pose proof (digits_value_ge (String d1 r) 0 ltac:(lia)) as Hge.
  unfold clamp_long, LONG_MAX, LONG_MIN, u8 in *.
  split; intros Hv; repeat split; repeat case_match; zbool; try lia;
    try reflexivity.
Qed.

Lemma parse_accepts_sign_and_space_witness :
  (0 < decimal "2" ->
   parsePinFromAnalogString "A+2" = decimal "2" mod 256 /\
   parsePinFromAnalogString "A 2" = decimal "2" mod 256 /\
   parsePinFromAnalogString "A-2" = (- decimal "2") mod 256) /\
  (decimal "2" = 0 ->
   parsePinFromAnalogString "A+2" = u8 (-1) /\
   parsePinFromAnalogString "A 2" = u8 (-1) /\
   parsePinFromAnalogString "A-2" = u8 (-1)).
Proof.
  apply (parse_accepts_sign_and_space "A"%char "2"%string);
    [reflexivity | vm_compute; discriminate].
Defined.

(** ** The named overloads *)

(** X26: A name that is too short or has the wrong prefix stops every named
    overload before it touches the device: [pinMode] does nothing,
    [analogRead] returns [0xFFFF], [getPinMode] returns IGNORED, and the
    state is the one before the call. *)
Theorem named_overloads_reject name mode_ d :
  (String.length name < 2)%nat \/
  (exists c rest, name = String c rest /\ c <> "A"%char /\ c <> "a"%char) ->
  pinMode_String name mode_ d = Some d /\
  analogRead_String name d = Some (0xFFFF, d) /\
  getPinMode_String name d = Some (mode_code IGNORED).
Proof.
  intros H.
  assert (Hp : parsePinFromAnalogString name = u8 (-1)).
  { destruct H as [H | (c & rest & -> & HA & Ha)];
      [apply parse_short | apply parse_prefix]; assumption. }
  unfold pinMode_String, analogRead_String, getPinMode_String.
  rewrite Hp, Z.eqb_refl. repeat split.
Qed.

Lemma named_overloads_reject_witness :
  pinMode_String "D13" INPUT (initialize (fresh 16 128 6))
  = Some (initialize (fresh 16 128 6)) /\
  analogRead_String "D13" (initialize (fresh 16 128 6))
  = Some (0xFFFF, initialize (fresh 16 128 6)) /\
  getPinMode_String "D13" (initialize (fresh 16 128 6)) = Some (mode_code IGNORED).
Proof.
  apply (named_overloads_reject "D13"). right.
  exists "D"%char, "13"%string. repeat split; discriminate.
Defined.

(** X27: The named [pinMode] and [getPinMode] agree on the pin a name stands
    for: after [pinMode(name, mode)], [getPinMode(name)] returns [mode]. *)
Theorem pinMode_String_then_getPinMode_String name mode_ d old sub v :
  parsePinFromAnalogString name <> u8 (-1) ->
  at_ (_pin_mode d) (u8 (parsePinFromAnalogString name + _analog_offset d)) = Some old ->
  at_ (_subscribed_ports d)
    (pin_port (u8 (parsePinFromAnalogString name + _analog_offset d))) = Some sub ->
  at_ (_digital_port d)
    (pin_port (u8 (parsePinFromAnalogString name + _analog_offset d))) = Some v ->
  exists d',
    pinMode_String name mode_ d = Some d' /\
    getPinMode_String name d' = Some (mode_code mode_).
Proof.
  intros Hp Hold Hsub Hv.
  destruct (pinMode_fields _ mode_ d old sub v Hold Hsub Hv)
    as (d' & Hd & Hm & _ & _ & _ & Hc & _).
  exists d'. unfold pinMode_String, getPinMode_String, getPinMode.
  assert ((parsePinFromAnalogString name =? u8 (-1)) = false) as ->
    by (zbool; exact Hp).
  split; [exact Hd|]. unfold counters in Hc. injection Hc as _ _ ->.
  rewrite Hm. eapply at_store_same; eauto.
Qed.

Lemma pinMode_String_then_getPinMode_String_witness :
  exists d',
    pinMode_String "A3" ANALOG (set_analog_offset 14 (initialize (fresh 16 128 6))) = Some d' /\
    getPinMode_String "A3" d' = Some (mode_code ANALOG).
Proof.
  apply (pinMode_String_then_getPinMode_String "A3" ANALOG
           (set_analog_offset 14 (initialize (fresh 16 128 6))) (mode_code OUTPUT) 0 0);
    [vm_compute; discriminate | reflexivity | reflexivity | reflexivity].
Defined.

(** ** Operations together *)

(** X28: Subscribe, report, read: after [pinMode(p, INPUT)], a digital report
    for the port of [p] makes [digitalRead(p)] return the reported level
    of the pin, whatever level was cached before. *)
Theorem input_pin_reads_report p d old sub v raw :
  at_ (_pin_mode d) p = Some old ->
  at_ (_subscribed_ports d) (pin_port p) = Some sub ->
  at_ (_digital_port d) (pin_port p) = Some v ->
  exists d1 d2,
    pinMode p INPUT d = Some d1 /\
    onDigitalReport (pin_port p) raw d1 = Some d2 /\
    digitalRead p d2 = Some (state_of_bool (Z.testbit raw (p mod 8)), d2).
Proof.
  intros Hold Hsub Hv.
  destruct (pinMode_fields p INPUT d old sub v Hold Hsub Hv)
    as (d1 & Hd1 & Hm1 & Hs1 & Hdig1 & _).
  rewrite decide_True in Hs1 by reflexivity.
  rewrite bool_decide_eq_false_2 in Hdig1 by discriminate. cbn [andb] in Hdig1.
  assert (Hs1' : at_ (_subscribed_ports d1) (pin_port p) = Some (or8 sub (pin_mask p)))
    by (rewrite Hs1; eapply at_store_same; eauto).
  assert (Hv1 : at_ (_digital_port d1) (pin_port p) = Some v) by (rewrite Hdig1; exact Hv).
  destruct (onDigitalReport_bits d1 (pin_port p) raw _ _ Hs1' Hv1)
    as (d2 & new & Hd2 & Hn & _ & _ & Hm2 & _ & Hb).
  exists d1, d2. split; [exact Hd1|]. split; [exact Hd2|].
  pose proof (Z.mod_pos_bound p 8 ltac:(lia)) as Hr.
  erewrite digitalRead_no_correction;
    [| rewrite Hm2, Hm1; eapply at_store_same; eauto | simpl; lia | exact Hn].
  rewrite (Hb (p mod 8) Hr), or8_own. cbn [negb andb]. rewrite orb_false_r.
  reflexivity.
Qed.

Lemma input_pin_reads_report_witness :
  exists d1 d2,
    pinMode 10 INPUT (initialize (fresh 16 128 6)) = Some d1 /\
    onDigitalReport (pin_port 10) 0x04 d1 = Some d2 /\
    digitalRead 10 d2 = Some (state_of_bool (Z.testbit 0x04 (10 mod 8)), d2).
Proof.
  apply (input_pin_reads_report 10 _ (mode_code OUTPUT) 0 0 0x04); reflexivity.
Defined.

(** ** Invariants of the modes and masks over all operations *)

Section Preserved.

(** A property of the cached modes and subscription masks that
    [initialize] establishes and [pinMode] keeps holds in every state
    the device reaches. *)
Variable P : RemoteDevice -> Prop.
Hypothesis P_same : forall d d',
  _pin_mode d' = _pin_mode d -> _subscribed_ports d' = _subscribed_ports d ->
  P d -> P d'.
Hypothesis P_pinMode : forall p mode_ d d', pinMode p mode_ d = Some d' -> P d -> P d'.
Hypothesis P_initialize : forall d e, P (raise e (initialize d)).

Lemma run_preserves o d d' : run o d = Some d' -> P d -> P d'.
Proof using P_same P_pinMode P_initialize.
  destruct o; cbn [run]; intros H HP.
  - eapply P_pinMode; eauto.
  - unfold pinMode_String in H. destruct (_ =? _).
    + injection H as <-. exact HP.
    + eapply P_pinMode; eauto.
  - unfold digitalWrite in H. bind_inv H.
    destruct (negb (z =? mode_code OUTPUT)); [destruct (z =? mode_code PWM)|].
    + bind_inv H. bind_inv H. bind_inv H. injection H as <-.
      eapply P_same; [| |eapply P_pinMode; eauto]; reflexivity.
    + injection H as <-. exact HP.
    + bind_inv H. bind_inv H. injection H as <-.
      eapply P_same; [| |exact HP]; reflexivity.
  - destruct (digitalRead pin d) as [[s d1]|] eqn:E; [|discriminate].
    injection H as <-. unfold digitalRead in E.
    bind_inv E. bind_inv E. bind_inv E. injection E as _ <-.
    destruct (negb (z =? mode_code INPUT)); [destruct (z =? mode_code ANALOG)|].
    * eapply P_pinMode; eauto.
    * injection E1 as <-. exact HP.
    * injection E1 as <-. exact HP.
  - unfold analogWrite in H. bind_inv H.
    destruct (negb (z =? mode_code PWM)); [destruct (z =? mode_code OUTPUT)|].
    + bind_inv H. bind_inv H. injection H as <-.
      apply store_inv in E1 as [-> _].
      pose proof (P_pinMode _ _ _ _ E0 HP) as Hr.
      apply pinMode_effect in E0 as (old & _ & Hm & _).
      eapply P_same; [| |exact Hr]; [|reflexivity].
      cbn [_pin_mode firmata set_pin_mode]. rewrite Hm.
      apply list_insert_insert_eq.
    + injection H as <-. exact HP.
    + injection H as <-. eapply P_same; [| |exact HP]; reflexivity.
  - destruct (analogRead pin d) as [[x d1]|] eqn:E; [|discriminate].
    injection H as <-. revert E. generalize pin. clear pin.
    assert (Hread : forall pin (x : Z) d0 d1,
      analogRead pin d0 = Some (x, d1) -> P d0 -> P d1).
    { intros pin x0 d0 d2 E HP0. unfold analogRead in E. bind_inv E.
      destruct (negb (z =? mode_code ANALOG)); [destruct (z =? mode_code INPUT)|].
      - bind_inv E. pose proof (P_pinMode _ _ _ _ E1 HP0) as Hr.
        destruct (pin <? _num_analog_pins r).
        + bind_inv E. injection E as _ <-. exact Hr.
        + injection E as _ <-. exact Hr.
      - injection E as _ <-. exact HP0.
      - destruct (pin <? _num_analog_pins d0).
        + bind_inv E. injection E as _ <-. exact HP0.
        + injection E as _ <-. exact HP0. }
    intros pin E. eapply Hread; eauto.
  - destruct (analogRead_String name d) as [[x d1]|] eqn:E; [|discriminate].
    injection H as <-. unfold analogRead_String in E. destruct (_ =? _).
    + injection E as _ <-. exact HP.
    + unfold analogRead in E. bind_inv E.
      destruct (negb (z =? mode_code ANALOG)); [destruct (z =? mode_code INPUT)|].
      * bind_inv E. pose proof (P_pinMode _ _ _ _ E1 HP) as Hr.
        destruct (_ <? _num_analog_pins r).
        -- bind_inv E. injection E as _ <-. exact Hr.
        -- injection E as _ <-. exact Hr.
      * injection E as _ <-. exact HP.
      * destruct (_ <? _num_analog_pins d).
        -- bind_inv E. injection E as _ <-. exact HP.
        -- injection E as _ <-. exact HP.
  - unfold onDigitalReport in H. bind_inv H. bind_inv H. bind_inv H.
    match type of H with pin_events 8 ?a ?b ?c ?e ?f = _ =>
      destruct (pin_events_cache 8 a b c e f) as (d2 & Hd & Hc); [apply u8_range|]
    end.
    rewrite Hd in H. injection H as <-.
    injection Hc as _ _ _ Hs _ _ Hm _.
    eapply P_same; [exact Hm | exact Hs | exact HP].
  - unfold onAnalogReport in H. bind_inv H. injection H as <-.
    eapply P_same; [| |exact HP]; reflexivity.
  - unfold onPinCapabilityResponseReceived in H.
    destruct (scan_capabilities data d); [|discriminate].
    injection H as <-. apply P_initialize.
Qed.

Lemma reachable_preserved d : reachable d -> P d.
Proof using P_same P_pinMode P_initialize.
  induction 1 as [d0 data d H | d o d' _ IH H].
  - unfold onPinCapabilityResponseReceived in H.
    destruct (scan_capabilities data d0); [|discriminate].
    injection H as <-. apply P_initialize.
  - eapply run_preserves; eauto.
Qed.

End Preserved.

(** X29: [getPinMode] only ever answers with a member of [PinMode]: in every
    state the device reaches, through any public operation or callback,
    each cached mode byte is the value of an enumerator (the mode given to
    a [pinMode], or the OUTPUT and PWM the operations set themselves). *)
Theorem cached_modes_are_enumerators d p m :
  reachable d -> getPinMode p d = Some m -> exists mode, m = mode_code mode.
Proof.
  intros Hr Hm.
  assert (Hv : modes_valid d).
  { revert Hr. apply reachable_preserved; unfold modes_valid.
    - intros d1 d2 -> _. auto.
    - intros q mode_ d1 d2 Hp Hd1.
      apply pinMode_effect in Hp as (old & _ & -> & _).
      apply Forall_insert; eauto.
    - intros d1 e. cbn [_pin_mode raise initialize].
      apply Forall_replicate. eauto. }
  unfold getPinMode in Hm. apply at_Some in Hm as [_ Hm].
  unfold modes_valid in Hv. rewrite Forall_lookup in Hv. eapply Hv; eauto.
Qed.

Lemma cached_modes_are_enumerators_witness :
  exists d0 d1,
    onPinCapabilityResponseReceived [0x7F; 0x7F] (fresh 1 8 6) = Some d0 /\
    analogWrite 1 200 d0 = Some d1 /\
    exists mode, mode_code PWM = mode_code mode.
Proof.
  match eval vm_compute in
    (onPinCapabilityResponseReceived [0x7F; 0x7F] (fresh 1 8 6)) with
  | Some ?d0 =>
      exists d0;
      match eval vm_compute in (analogWrite 1 200 d0) with
      | Some ?d1 => exists d1
      end
  end.
  split; [vm_compute; reflexivity|]. split; [vm_compute; reflexivity|].
  eapply (cached_modes_are_enumerators _ 1 (mode_code PWM)).
  - eapply (reach_step _ (call_analogWrite 1 200)).
    + eapply (reach_ready (fresh 1 8 6) [0x7F; 0x7F]). vm_compute. reflexivity.
    + vm_compute. reflexivity.
  - vm_compute. reflexivity.
Defined.
